(** * Subscription.ts: the composite teardown registry

    A shallow embedding of [src/Subscription.ts] (class [Subscription] with
    [unsubscribe], [add], [remove], the static [EMPTY] and the class
    [UnsubscriptionError]) and the properties of its disposal state machine.

    JavaScript values are an inductive type; [Subscription] instances live in
    an explicit heap (a list indexed by address) because the code mutates
    them through shared references.  Teardown callables are opaque to the
    class: a callable is modelled by its identity and by what a call does to
    its caller (return, or throw a value), and every call is appended to a
    log, so that "was invoked" and "how often" can be stated.  A callable
    here does not call back into the class. *)

From Stdlib Require Import ZArith Lia.
From stdpp Require Import base option list strings.

Set Default Proof Using "Type".
#[local] Set Warnings "-register-all".

(** ** JavaScript values *)

Definition addr := nat.

Inductive Value : Type :=
| VUndefined
| VNull
| VBool (b : bool)
| VNum (z : Z)
| VNaN
| VStr (s : string)
| VFun (id : nat) (throws : option Value)
    (* a callable: its identity, and the value it throws when called
       ([None]: it returns normally) *)
| VObj (id : nat) (p_isUnsubscribed : Value) (p_unsubscribe : Value)
    (* an object that is not a Subscription, with its identity and the
       values of its properties [isUnsubscribed] and [unsubscribe]
       ([VUndefined] when the property is missing) *)
| VSub (a : addr)
    (* a reference to the Subscription instance stored at [a] *)
| UnsubscriptionError (errors : list Value)
    (* [new UnsubscriptionError(errors)] *)
| Error (teardown : Value)
    (* [new Error('Unrecognized teardown ' + teardown + ' added to
       Subscription.')]: the message is determined by [teardown] *)
| TypeError.
    (* what the engine throws when a non-callable is called *)

(** Structural equality of values, by computation. *)
Fixpoint Value_eqb (x y : Value) {struct x} : bool :=
  let fix list_eqb (l1 l2 : list Value) {struct l1} : bool :=
    match l1, l2 with
    | [], [] => true
    | x1 :: l1', x2 :: l2' => Value_eqb x1 x2 && list_eqb l1' l2'
    | _, _ => false
    end in
  match x, y with
  | VUndefined, VUndefined | VNull, VNull | VNaN, VNaN
  | TypeError, TypeError => true
  | VBool b1, VBool b2 => bool_decide (b1 = b2)
  | VNum z1, VNum z2 => bool_decide (z1 = z2)
  | VStr s1, VStr s2 => bool_decide (s1 = s2)
  | VFun i1 None, VFun i2 None => bool_decide (i1 = i2)
  | VFun i1 (Some e1), VFun i2 (Some e2) =>
      bool_decide (i1 = i2) && Value_eqb e1 e2
  | VObj i1 a1 b1, VObj i2 a2 b2 =>
      bool_decide (i1 = i2) && Value_eqb a1 a2 && Value_eqb b1 b2
  | VSub a1, VSub a2 => bool_decide (a1 = a2)
  | UnsubscriptionError l1, UnsubscriptionError l2 => list_eqb l1 l2
  | Error t1, Error t2 => Value_eqb t1 t2
  | _, _ => false
  end.

(** [typeof v] *)
Inductive JSType :=
  TUndefined | TObject | TBoolean | TNumber | TString | TFunction.

#[global] Instance JSType_eq_dec : EqDecision JSType.
Proof. solve_decision. Defined.

Definition typeof (v : Value) : JSType :=
  match v with
  | VUndefined => TUndefined
  | VNull => TObject
  | VBool _ => TBoolean
  | VNum _ | VNaN => TNumber
  | VStr _ => TString
  | VFun _ _ => TFunction
  | VObj _ _ _ | VSub _ | UnsubscriptionError _ | Error _ | TypeError => TObject
  end.

(** Truthiness: what [if (v)], [!v] and [a || b] look at. *)
Definition truthy (v : Value) : bool :=
  match v with
  | VUndefined | VNull | VBool false | VNaN => false
  | VNum z => negb (z =? 0)%Z
  | VStr s => negb (bool_decide (s = EmptyString))
  | _ => true
  end.

(** [v == null] *)
Definition loose_eq_null (v : Value) : bool :=
  match v with VUndefined | VNull => true | _ => false end.

(** [x === y]: identity for objects and callables (their identity is part of
    the value), equality for primitives, and [NaN] differs from itself. *)
Definition strict_eq (x y : Value) : bool :=
  match x with
  | VNaN => false
  | _ => Value_eqb x y
  end.

(** [err instanceof UnsubscriptionError] *)
Definition instanceof_UnsubscriptionError (v : Value) : bool :=
  match v with UnsubscriptionError _ => true | _ => false end.

(** Modelled from the spec: the helpers imported from [./util] are not in
    the source tree.  The spec runs the primary action "if present" and
    disposes each child, so [isFunction] and [isObject] are the [typeof]
    tests their names say, [isArray] is [Array.isArray] (it is [is_Some] on
    the field [_subscriptions] below), and [tryCatch] with [errorObject]
    captures a failure "without propagating it immediately". *)
Definition isFunction (v : Value) : bool := bool_decide (typeof v = TFunction).

Definition isObject (v : Value) : bool :=
  negb (loose_eq_null v) && bool_decide (typeof v = TObject).

(** ** The heap of Subscription instances *)

(** The fields of an instance.  [_subscriptions] is [None] for both
    [undefined] (never assigned) and [null] (assigned by [unsubscribe]); the
    code never distinguishes the two.  The array is reachable through this
    field only, so it is a value of the field. *)
Record Subscription := mkSubscription {
  isUnsubscribed : bool;
  _unsubscribe : Value;
  _subscriptions : option (list Value)
}.

(** A call [callee.call(this)]. *)
Inductive Event := Call (callee : Value) (this : Value).

Record State := mkState {
  heap : list Subscription;
  log : list Event
}.

(** How a method call ends. *)
Inductive Outcome := Returns | Throws (e : Value).

(** Modelled from the spec: [tryCatch] and [errorObject] are imported from
    [./util], which is not in the source tree; they serve "capturing any
    failure without propagating it immediately".  [tryCatch(f).call(this)]
    evaluates either to the shared [errorObject], whose field [e] holds the
    caught value, or to the result of [f], which the class never looks
    at. *)
Inductive Trial := errorObject (e : Value) | returned.

(** An address outside the heap denotes no instance: it reads as the inert
    instance (unsubscribed, no action, no children) and writes to it are
    dropped. *)
Definition inert : Subscription :=
  {| isUnsubscribed := true; _unsubscribe := VUndefined; _subscriptions := None |}.

Definition deref (st : State) (a : addr) : Subscription :=
  default inert (heap st !! a).

Definition store (a : addr) (s : Subscription) (st : State) : State :=
  {| heap := <[a := s]> (heap st); log := log st |}.

Definition record (ev : Event) (st : State) : State :=
  {| heap := heap st; log := log st ++ [ev] |}.

(** [new Subscription(_unsubscribe)]: the constructor assigns the field only
    when the argument is truthy. *)
Definition new_Subscription (arg : Value) (st : State) : addr * State :=
  (length (heap st),
   {| heap := heap st ++
        [ {| isUnsubscribed := false;
             _unsubscribe := if truthy arg then arg else VUndefined;
             _subscriptions := None |} ];
      log := log st |}).

(** Calling a value as a function with receiver [this].  The log records
    the call; calling what is not a callable throws a [TypeError]. *)
Definition call (f this : Value) (st : State) : State * Outcome :=
  (record (Call f this) st,
   match f with
   | VFun _ None => Returns
   | VFun _ (Some e) => Throws e
   | _ => Throws TypeError
   end).

(** [tryCatch(f).call(this)] *)
Definition tryCatch (f this : Value) (st : State) : State * Trial :=
  match call f this st with
  | (st', Returns) => (st', returned)
  | (st', Throws e) => (st', errorObject e)
  end.

(** ** [Subscription.unsubscribe] *)

(** The locals [hasErrors] and [errors] of [unsubscribe]; [errors] starts
    out undefined. *)
Record Errs := mkErrs {
  hasErrors : bool;
  errors : option (list Value)
}.

Definition no_errors : Errs := {| hasErrors := false; errors := None |}.

(** [hasErrors = true; (errors = errors || []).push(e)] *)
Definition push_error (e : Value) (acc : Errs) : Errs :=
  {| hasErrors := true; errors := Some (default [] (errors acc) ++ [e]) |}.

(** The body of [if (trial === errorObject)] in the loop over the children:
    an [UnsubscriptionError] is spliced in, anything else is pushed. *)
Definition collect_error (err : Value) (acc : Errs) : Errs :=
  let errs := default [] (errors acc) in
  {| hasErrors := true;
     errors := Some (match err with
                     | UnsubscriptionError inner => errs ++ inner
                     | _ => errs ++ [err]
                     end) |}.

(** [sub.unsubscribe] called on an object [sub]: the method of the class
    for an instance, the object's own property otherwise.  [self] is the
    method of the class. *)
Definition call_unsubscribe (self : addr → State → option (State * Outcome))
    (sub : Value) (st : State) : option (State * Outcome) :=
  match sub with
  | VSub b => self b st
  | VObj _ _ u => Some (call u sub st)
  | _ => Some (call VUndefined sub st)
  end.

(** The [while (++index < len)] loop. *)
Fixpoint unsubscribe_loop (self : addr → State → option (State * Outcome))
    (subs : list Value) (acc : Errs) (st : State) : option (State * Errs) :=
  match subs with
  | [] => Some (st, acc)
  | sub :: rest =>
      if isObject sub then
        match call_unsubscribe self sub st with
        | None => None
        | Some (st', Returns) => unsubscribe_loop self rest acc st'
        | Some (st', Throws err) =>
            unsubscribe_loop self rest (collect_error err acc) st'
        end
      else unsubscribe_loop self rest acc st
  end.

(** [if (hasErrors) throw new UnsubscriptionError(errors)] *)
Definition finish (acc : Errs) : Outcome :=
  if hasErrors acc then Throws (UnsubscriptionError (default [] (errors acc)))
  else Returns.

(** What [unsubscribe] leaves of an instance: the flag is set and
    [_subscriptions] is null; the field [_unsubscribe] is not assigned. *)
Definition disposed_of (self : Subscription) : Subscription :=
  {| isUnsubscribed := true;
     _unsubscribe := _unsubscribe self;
     _subscriptions := None |}.

(** [if (isFunction(_unsubscribe)) { ... }]: the primary action, called with
    the instance as receiver. *)
Definition unsubscribe_primary (this : addr) (_unsubscribe : Value)
    (st : State) : State * Errs :=
  if isFunction _unsubscribe then
    match tryCatch _unsubscribe (VSub this) st with
    | (st', errorObject e) => (st', push_error e no_errors)
    | (st', returned) => (st', no_errors)
    end
  else (st, no_errors).

(** [unsubscribe()] on the instance at [this].  The recursion through the
    children is bounded by [fuel]; [None] means the fuel ran out. *)
Fixpoint unsubscribe (fuel : nat) (this : addr) (st : State)
    : option (State * Outcome) :=
  match fuel with
  | 0 => None
  | S fuel' =>
      let self := deref st this in
      if isUnsubscribed self then Some (st, Returns)
      else
        let st1 := store this (disposed_of self) st in
        let '(st2, acc) := unsubscribe_primary this (_unsubscribe self) st1 in
        match _subscriptions self with
        | Some subs =>
            match unsubscribe_loop (unsubscribe fuel') subs acc st2 with
            | None => None
            | Some (st3, acc') => Some (st3, finish acc')
            end
        | None => Some (st2, finish acc)
        end
  end.

(** ** [Subscription.EMPTY], [add], [remove] *)

(** The static initialiser runs first, so [EMPTY] is the first instance. *)
Definition EMPTY : addr := 0.

Definition initial : State :=
  let '(empty, st) := new_Subscription VUndefined {| heap := []; log := [] |} in
  store empty {| isUnsubscribed := true;
                 _unsubscribe := _unsubscribe (deref st empty);
                 _subscriptions := _subscriptions (deref st empty) |} st.

(** [sub.isUnsubscribed], as a condition *)
Definition prop_isUnsubscribed (st : State) (sub : Value) : bool :=
  match sub with
  | VSub b => isUnsubscribed (deref st b)
  | VObj _ i _ => truthy i
  | _ => false
  end.

(** [typeof sub.unsubscribe] *)
Definition typeof_unsubscribe (sub : Value) : JSType :=
  match sub with
  | VSub _ => TFunction
  | VObj _ _ u => typeof u
  | _ => TUndefined
  end.

(** [(this._subscriptions || (this._subscriptions = [])).push(sub)] *)
Definition push_subscription (this : addr) (sub : Value) (st : State) : State :=
  let self := deref st this in
  store this {| isUnsubscribed := isUnsubscribed self;
                _unsubscribe := _unsubscribe self;
                _subscriptions := Some (default [] (_subscriptions self) ++ [sub]) |} st.

(** [case 'object':] of [add], which [case 'function':] falls into. *)
Definition add_object (fuel : nat) (this : addr) (sub : Value) (st : State)
    : option (State * Outcome) :=
  if prop_isUnsubscribed st sub
     || negb (bool_decide (typeof_unsubscribe sub = TFunction))
  then Some (st, Returns)
  else if isUnsubscribed (deref st this) then
    call_unsubscribe (unsubscribe fuel) sub st
  else Some (push_subscription this sub st, Returns).

Definition add (fuel : nat) (this : addr) (teardown : Value) (st : State)
    : option (State * Outcome) :=
  if negb (truthy teardown)
     || strict_eq teardown (VSub this)
     || strict_eq teardown (VSub EMPTY)
  then Some (st, Returns)
  else
    match typeof teardown with
    | TFunction =>
        let '(sub, st') := new_Subscription teardown st in
        add_object fuel this (VSub sub) st'
    | TObject => add_object fuel this teardown st
    | _ => Some (st, Throws (Error teardown))
    end.

(** [subscriptions.indexOf(x)]; [None] is [-1]. *)
Fixpoint indexOf (x : Value) (l : list Value) : option nat :=
  match l with
  | [] => None
  | y :: l' => if strict_eq y x then Some 0 else S <$> indexOf x l'
  end.

Definition remove (this : addr) (subscription : Value) (st : State) : State :=
  if loose_eq_null subscription
     || strict_eq subscription (VSub this)
     || strict_eq subscription (VSub EMPTY)
  then st
  else
    let self := deref st this in
    match _subscriptions self with
    | Some subscriptions =>
        match indexOf subscription subscriptions with
        | Some subscriptionIndex =>
            store this {| isUnsubscribed := isUnsubscribed self;
                          _unsubscribe := _unsubscribe self;
                          _subscriptions :=
                            Some (delete subscriptionIndex subscriptions) |} st
        | None => st
        end
    | None => st
    end.

(** ** Notions used to state the properties *)

(** The instance whose primary action an event ran: the receiver of the
    call.  Only [unsubscribe] calls with an instance as receiver; the
    [unsubscribe] property of a foreign object is called on that object. *)
Definition receiver (ev : Event) : option addr :=
  match ev with
  | Call _ (VSub b) => Some b
  | _ => None
  end.

Definition receivers (evs : list Event) : list addr := omap receiver evs.

(** [cascade_step st st']: from [st] to [st'] no instance was created, an
    instance is either as it was or was active and is now what
    [unsubscribe] leaves of it, and the log grew by calls that ran the
    primary action of instances that went from active to unsubscribed, each
    at most once. *)
Record cascade_step (st st' : State) : Prop := mk_cascade_step {
  step_length : length (heap st') = length (heap st);
  step_heap : ∀ a,
    deref st' a = deref st a ∨
    (isUnsubscribed (deref st a) = false ∧
     deref st' a = disposed_of (deref st a));
  step_log : ∃ evs,
    log st' = log st ++ evs ∧
    NoDup (receivers evs) ∧
    ∀ f b, Call f (VSub b) ∈ evs →
      isUnsubscribed (deref st b) = false ∧
      isUnsubscribed (deref st' b) = true ∧
      f = _unsubscribe (deref st b)
}.

(** The number of instances that are not unsubscribed.  Every call of
    [unsubscribe] that does anything marks one of them, and nothing in a
    cascade creates or revives an instance. *)
Fixpoint active (h : list Subscription) : nat :=
  match h with
  | [] => 0
  | s :: h' => (if isUnsubscribed s then 0 else 1) + active h'
  end.

(** The values of the scenarios of the specification: a parent [p] without
    primary action, a callable [f] that throws ["a"] and a callable [g] that
    returns. *)
Definition scenario_p : addr * State := new_Subscription VUndefined initial.

Definition scenario_f : Value := VFun 1 (Some (VStr "a")).
Definition scenario_g : Value := VFun 2 None.

(** Sequencing of calls that return normally. *)
Definition and_then (r : option (State * Outcome))
    (k : State → option (State * Outcome)) : option (State * Outcome) :=
  match r with
  | Some (st, Returns) => k st
  | _ => r
  end.

(** The children of an instance, as a list (none when the field is not an
    array). *)
Definition children (st : State) (a : addr) : list Value :=
  default [] (_subscriptions (deref st a)).


(** What a client of the class can do: construct an instance, and call one
    of the three methods on an instance that exists.  A client may catch
    what a call throws and go on, so a run continues after [Throws]. *)
Inductive Op :=
| OpNew (arg : Value)
| OpUnsubscribe (this : addr)
| OpAdd (this : addr) (teardown : Value)
| OpRemove (this : addr) (subscription : Value).

Definition exists_in (st : State) (this : addr) : bool :=
  bool_decide (this < length (heap st)).

Definition run_op (fuel : nat) (op : Op) (st : State) : option State :=
  match op with
  | OpNew arg => Some (new_Subscription arg st).2
  | OpUnsubscribe this =>
      if exists_in st this then fst <$> unsubscribe fuel this st else None
  | OpAdd this teardown =>
      if exists_in st this then fst <$> add fuel this teardown st else None
  | OpRemove this subscription =>
      if exists_in st this then Some (remove this subscription st) else None
  end.

Fixpoint run_ops (fuel : nat) (ops : list Op) (st : State) : option State :=
  match ops with
  | [] => Some st
  | op :: ops' =>
      match run_op fuel op st with
      | Some st' => run_ops fuel ops' st'
      | None => None
      end
  end.

(** The states a program can be in: those that runs from [initial] reach. *)
Definition reachable (st : State) : Prop :=
  ∃ fuel ops, run_ops fuel ops initial = Some st.

(** [EMPTY] is there and is the inert instance: unsubscribed, without
    children. *)
Definition EMPTY_inert (st : State) : Prop := heap st !! EMPTY = Some inert.

(** No instance is among its own children. *)
Definition no_self_child (st : State) : Prop :=
  ∀ a, VSub a ∉ children st a.

(** The state in which a new instance at address [1] holds the primary
    action [scenario_g], and what [unsubscribe] makes of it. *)
Definition state_with_action : State := (new_Subscription scenario_g initial).2.

Definition state_with_action_unsubscribed : State :=
  record (Call scenario_g (VSub 1))
    (store 1 (disposed_of (deref state_with_action 1)) state_with_action).

(** The state with an instance [1] without primary action and an instance
    [2] whose primary action is [scenario_g]. *)
Definition state_parent_child : State :=
  (new_Subscription scenario_g (new_Subscription VUndefined initial).2).2.

(** The state of the flattening law, built through the interface: [1] has
    a primary action that throws ["e4"]; its first child [2] wraps a
    callable that throws ["e1"]; its second child [3] has two children, [4]
    and [5], that wrap callables throwing ["e2"] and ["e3"]. *)
Definition state_flattening : State :=
  default initial
    (run_ops 3 [OpNew (VFun 4 (Some (VStr "e4")));
                OpAdd 1 (VFun 1 (Some (VStr "e1")));
                OpNew VUndefined;
                OpAdd 3 (VFun 2 (Some (VStr "e2")));
                OpAdd 3 (VFun 3 (Some (VStr "e3")));
                OpAdd 1 (VSub 3)] initial).

(** The state a call leaves, for a call that ends. *)
Definition state_after (r : option (State * Outcome)) : State :=
  default initial (fst <$> r).

(** A call that failed: the callee throws, or is not a callable. *)
Definition failed (ev : Event) : bool :=
  match ev with
  | Call (VFun _ None) _ => false
  | _ => true
  end.

(** What a failed call threw. *)
Definition thrown (ev : Event) : Value :=
  match ev with
  | Call (VFun _ (Some e)) _ => e
  | _ => TypeError
  end.

(** What a call contributes to the error list of the cascade it belongs to.
    The primary action of an instance (the receiver is the instance) has
    what it throws pushed as one entry; the [unsubscribe] of a foreign
    object has an aggregate it throws spliced in. *)
Definition contribution (ev : Event) : list Value :=
  match ev with
  | Call (VFun _ None) _ => []
  | Call (VFun _ (Some e)) this =>
      match this with
      | VSub _ => [e]
      | _ => match e with
             | UnsubscriptionError inner => inner
             | _ => [e]
             end
      end
  | Call _ _ => [TypeError]
  end.

(** The outcome of a cascade that made the calls [evs]. *)
Definition outcome_of (evs : list Event) : Outcome :=
  if existsb failed evs
  then Throws (UnsubscriptionError (flat_map contribution evs))
  else Returns.

(** An object without an [unsubscribe] property. *)
Definition plain_object : Value := VObj 7 VUndefined VUndefined.

(** An instance at [1] whose primary action throws an aggregate of ["x"],
    and a foreign object whose [unsubscribe] is that same callable, as the
    only child of an instance at [1] without primary action. *)
Definition throws_aggregate : Value :=
  VFun 1 (Some (UnsubscriptionError [VStr "x"])).

Definition state_primary_aggregate : State :=
  (new_Subscription throws_aggregate initial).2.

Definition state_child_aggregate : State :=
  default initial
    (run_ops 3 [OpNew VUndefined;
                OpAdd 1 (VObj 9 VUndefined throws_aggregate)] initial).

(** ** Notions used to state the further properties *)

(** The call that [unsubscribe] makes for the primary action: none when the
    field is not a callable. *)
Definition primary_events (this : addr) (_unsubscribe : Value) : list Event :=
  if isFunction _unsubscribe then [Call _unsubscribe (VSub this)] else [].

(** What a value throws when it is called as a teardown: nothing when it
    returns, and nothing when it is not a callable and is never called. *)
Definition thrown_by (f : Value) : option Value :=
  match f with
  | VFun _ (Some e) => Some e
  | _ => None
  end.

(** The outcome of [unsubscribe] with the error list [errs]. *)
Definition aggregate (errs : list Value) : Outcome :=
  match errs with
  | [] => Returns
  | _ => Throws (UnsubscriptionError errs)
  end.











(** An unsubscribed instance holds no array of children. *)
Definition released (st : State) : Prop :=
  ∀ a, isUnsubscribed (deref st a) = true → _subscriptions (deref st a) = None.



(** The calls of a cascade with an instance as receiver have a callable as
    callee. *)
Definition calls_callables (st st' : State) : Prop :=
  ∃ evs, log st' = log st ++ evs ∧
    ∀ f b, Call f (VSub b) ∈ evs → isFunction f = true.

(** The calls of the primary actions of the instances that [add] created
    for the callables [fs], at the addresses from [n] on. *)
Fixpoint wrapper_calls (n : addr) (fs : list Value) : list Event :=
  match fs with
  | [] => []
  | f :: fs' => Call f (VSub n) :: wrapper_calls (S n) fs'
  end.

(** A call of a callable with an instance as receiver. *)
Definition primary_call (ev : Event) : bool :=
  match ev with
  | Call (VFun _ _) (VSub _) => true
  | _ => false
  end.



(** [state_parent_child] after [2] has been unsubscribed, a run that goes
    on with calls on both instances, and the state it ends in. *)
Definition state_child_unsubscribed : State :=
  state_after (unsubscribe 3 2 state_parent_child).

Definition ops_after_unsubscribe : list Op :=
  [OpUnsubscribe 2; OpAdd 1 (VSub 2); OpAdd 2 scenario_f;
   OpRemove 2 (VSub 1); OpUnsubscribe 1].

Definition state_ops_run : State :=
  default initial (run_ops 3 ops_after_unsubscribe state_child_unsubscribed).

(** * Properties *)

(** ** Equality of values *)

(** Induction over values that also reaches the elements of an error list
    and the thrown value of a callable. *)
Section Value_ind'.
Variable P : Value → Prop.
Hypothesis HUndefined : P VUndefined.
Hypothesis HNull : P VNull.
Hypothesis HBool : ∀ b, P (VBool b).
Hypothesis HNum : ∀ z, P (VNum z).
Hypothesis HNaN : P VNaN.
Hypothesis HStr : ∀ s, P (VStr s).
Hypothesis HFunNone : ∀ id, P (VFun id None).
Hypothesis HFunSome : ∀ id e, P e → P (VFun id (Some e)).
Hypothesis HObj : ∀ id i u, P i → P u → P (VObj id i u).
Hypothesis HSub : ∀ a, P (VSub a).
Hypothesis HUnsubErr : ∀ l, Forall P l → P (UnsubscriptionError l).
Hypothesis HError : ∀ t, P t → P (Error t).
Hypothesis HTypeError : P TypeError.

Fixpoint Value_ind' (v : Value) : P v :=
  match v with
  | VUndefined => HUndefined
  | VNull => HNull
  | VBool b => HBool b
  | VNum z => HNum z
  | VNaN => HNaN
  | VStr s => HStr s
  | VFun id None => HFunNone id
  | VFun id (Some e) => HFunSome id e (Value_ind' e)
  | VObj id i u => HObj id i u (Value_ind' i) (Value_ind' u)
  | VSub a => HSub a
  | UnsubscriptionError l =>
      HUnsubErr l
        ((fix go (l : list Value) : Forall P l :=
            match l with
            | [] => Forall_nil_2 P
            | x :: l' => Forall_cons_2 P x l' (Value_ind' x) (go l')
            end) l)
  | Error t => HError t (Value_ind' t)
  | TypeError => HTypeError
  end.
End Value_ind'.

Lemma Value_eqb_eq (x y : Value) : Value_eqb x y = true ↔ x = y.
Proof.
  revert y. induction x as [| | | | | | |? ? IHx|? ? ? IHx1 IHx2| |l IHl|? IHx|]
    using Value_ind';
    intros [| | | | | | ? [?|] | | | l' | |]; simpl;
    rewrite ?andb_true_iff, ?bool_decide_eq_true, ?IHx, ?IHx1, ?IHx2;
    try (split; [intros; destruct_and?; congruence | intros [=]; subst; done]).
  revert l'. induction IHl as [|x l Hx _ IHl]; intros [|y l']; simpl;
    try (split; [done | intros [=]]); [done|].
  rewrite andb_true_iff, Hx, IHl.
  split; [intros [-> [=]]; congruence | intros [=]; subst; done].
Qed.

#[global] Instance Value_eq_dec : EqDecision Value.
Proof.
  intros x y. destruct (Value_eqb x y) eqn:E; [left|right].
  - by apply Value_eqb_eq.
  - intros H. apply Value_eqb_eq in H. congruence.
Defined.

#[global] Instance Subscription_eq_dec : EqDecision Subscription.
Proof. solve_decision. Defined.

#[global] Instance Event_eq_dec : EqDecision Event.
Proof. solve_decision. Defined.

(** ** Reading and writing the heap *)

Lemma deref_store_eq a s st :
  a < length (heap st) → deref (store a s st) a = s.
Proof.
  intros Hlt. unfold deref, store; simpl.
  by rewrite list_lookup_insert_eq.
Qed.

Lemma deref_store_ne a b s st :
  a ≠ b → deref (store a s st) b = deref st b.
Proof.
  intros Hne. unfold deref, store; simpl.
  by rewrite list_lookup_insert_ne.
Qed.

Lemma deref_record ev st a : deref (record ev st) a = deref st a.
Proof. reflexivity. Qed.

Lemma active_in_heap st a :
  isUnsubscribed (deref st a) = false → heap st !! a = Some (deref st a).
Proof.
  unfold deref. destruct (heap st !! a); [done | discriminate].
Qed.

Lemma active_lt_length st a :
  isUnsubscribed (deref st a) = false → a < length (heap st).
Proof.
  intros H. apply active_in_heap in H. by eapply lookup_lt_Some.
Qed.

Lemma heap_call f this st : heap (call f this st).1 = heap st.
Proof. reflexivity. Qed.

Lemma heap_tryCatch f this st : heap (tryCatch f this st).1 = heap st.
Proof. unfold tryCatch, call. by repeat case_match. Qed.

Lemma heap_unsubscribe_primary this f st :
  heap (unsubscribe_primary this f st).1 = heap st.
Proof.
  unfold unsubscribe_primary. destruct (isFunction f); [|done].
  pose proof (heap_tryCatch f (VSub this) st) as H.
  destruct (tryCatch f (VSub this) st) as [st' [e|]]; exact H.
Qed.

(** The unfolding of [unsubscribe] for an instance that is already
    unsubscribed, and for one that is not. *)
Lemma unsubscribe_disposed fuel this st :
  isUnsubscribed (deref st this) = true →
  unsubscribe (S fuel) this st = Some (st, Returns).
Proof. intros H. simpl. by rewrite H. Qed.

Lemma unsubscribe_active fuel this st :
  isUnsubscribed (deref st this) = false →
  unsubscribe (S fuel) this st =
    let self := deref st this in
    let r := unsubscribe_primary this (_unsubscribe self)
               (store this (disposed_of self) st) in
    match _subscriptions self with
    | Some subs =>
        match unsubscribe_loop (unsubscribe fuel) subs r.2 r.1 with
        | None => None
        | Some (st3, acc') => Some (st3, finish acc')
        end
    | None => Some (r.1, finish r.2)
    end.
Proof.
  intros H. simpl. rewrite H.
  by destruct (unsubscribe_primary _ _ _).
Qed.

(** ** Relations that every step of a cascade preserves *)

(** A preorder on states that is closed under the two things a cascade does
    on its own (marking an instance and running its primary action; calling
    the [unsubscribe] property of a foreign object) holds between the states
    before and after [unsubscribe]. *)
Section Cascade.
Variable R : State → State → Prop.
Hypothesis R_refl : ∀ st, R st st.
Hypothesis R_trans : ∀ st1 st2 st3, R st1 st2 → R st2 st3 → R st1 st3.
Hypothesis R_enter : ∀ this st,
  isUnsubscribed (deref st this) = false →
  R st (unsubscribe_primary this (_unsubscribe (deref st this))
          (store this (disposed_of (deref st this)) st)).1.
Hypothesis R_foreign : ∀ u sub st,
  (∀ a, sub ≠ VSub a) → R st (call u sub st).1.

Lemma call_unsubscribe_cascade self sub st st' o :
  (∀ b st st' o, self b st = Some (st', o) → R st st') →
  call_unsubscribe self sub st = Some (st', o) → R st st'.
Proof using R_foreign.
  intros Hself.
  destruct sub as [| | | | | | | id i u | b | | |];
    unfold call_unsubscribe; try apply Hself;
    intros [= <- _];
    match goal with
    | |- R _ (record (Call ?u ?sub) _) => by apply (R_foreign u sub st)
    end.
Qed.

Lemma unsubscribe_loop_cascade self subs acc st st' acc' :
  (∀ b st st' o, self b st = Some (st', o) → R st st') →
  unsubscribe_loop self subs acc st = Some (st', acc') → R st st'.
Proof using R_refl R_trans R_foreign.
  intros Hself. revert acc st.
  induction subs as [|sub rest IH]; intros acc st; simpl.
  - intros [= <- _]. apply R_refl.
  - destruct (isObject sub); [|apply IH].
    destruct (call_unsubscribe self sub st) as [[st1 o]|] eqn:Hc; [|done].
    pose proof (call_unsubscribe_cascade _ _ _ _ _ Hself Hc) as H1.
    destruct o; intros H2; apply IH in H2; by eapply R_trans.
Qed.

Theorem unsubscribe_cascade fuel this st st' o :
  unsubscribe fuel this st = Some (st', o) → R st st'.
Proof using All.
  revert this st st' o. induction fuel as [|fuel IH]; intros this st st' o.
  { discriminate. }
  destruct (isUnsubscribed (deref st this)) eqn:Hu.
  - rewrite unsubscribe_disposed by done. intros [= <- _]. apply R_refl.
  - rewrite unsubscribe_active by done. cbv zeta.
    pose proof (R_enter this st Hu) as H1.
    destruct (unsubscribe_primary _ _ _) as [st2 acc]; simpl in *.
    destruct (_subscriptions (deref st this)) as [subs|].
    + destruct (unsubscribe_loop _ _ _ _) as [[st3 acc']|] eqn:Hl; [|done].
      intros [= <- _]. eapply R_trans; [exact H1|].
      eapply unsubscribe_loop_cascade; [|exact Hl]. apply IH.
    + by intros [= <- _].
Qed.
End Cascade.

(** ** What a cascade does to the heap and to the log *)

Lemma cascade_step_disposed st st' a :
  cascade_step st st' →
  isUnsubscribed (deref st a) = true → deref st' a = deref st a.
Proof.
  intros H Hu. destruct (step_heap _ _ H a) as [|[Ha _]]; congruence.
Qed.

Lemma cascade_step_flag st st' a :
  cascade_step st st' →
  isUnsubscribed (deref st a) = true → isUnsubscribed (deref st' a) = true.
Proof. intros H Hu. by rewrite (cascade_step_disposed _ _ _ H Hu). Qed.

Lemma cascade_step_action st st' a :
  cascade_step st st' → _unsubscribe (deref st' a) = _unsubscribe (deref st a).
Proof.
  intros H. destruct (step_heap _ _ H a) as [->|[_ ->]]; reflexivity.
Qed.

Lemma receivers_app evs evs' :
  receivers (evs ++ evs') = receivers evs ++ receivers evs'.
Proof. apply omap_app. Qed.

Lemma elem_of_receivers b evs :
  b ∈ receivers evs ↔ ∃ f, Call f (VSub b) ∈ evs.
Proof.
  unfold receivers. rewrite list_elem_of_omap. split.
  - intros ([f t] & Hin & Hr). destruct t; try discriminate.
    injection Hr as ->. by exists f.
  - intros [f Hin]. by exists (Call f (VSub b)).
Qed.

Lemma cascade_step_refl st : cascade_step st st.
Proof.
  split; [done | by left |].
  exists []. split; [by rewrite app_nil_r|]. split; [constructor|].
  intros f b Hin. by apply elem_of_nil in Hin.
Qed.

Lemma cascade_step_trans st1 st2 st3 :
  cascade_step st1 st2 → cascade_step st2 st3 → cascade_step st1 st3.
Proof.
  intros H12 H23. split.
  - rewrite (step_length _ _ H23). apply (step_length _ _ H12).
  - intros a.
    destruct (step_heap _ _ H12 a) as [E12|[Hu E12]];
      destruct (step_heap _ _ H23 a) as [E23|[Hu' E23]].
    + left. congruence.
    + right. rewrite E12 in *. by split.
    + right. split; [done | congruence].
    + rewrite E12 in Hu'. discriminate.
  - destruct (step_log _ _ H12) as (evs & Hl & Hnd & Hev).
    destruct (step_log _ _ H23) as (evs' & Hl' & Hnd' & Hev').
    exists (evs ++ evs'). split; [by rewrite Hl', Hl, app_assoc|]. split.
    + rewrite receivers_app. apply NoDup_app. split; [done|]. split; [|done].
      intros b [f Hb]%elem_of_receivers [f' Hb']%elem_of_receivers.
      apply Hev in Hb as (_ & Hb & _). apply Hev' in Hb' as (Hb' & _).
      congruence.
    + intros f b [Hin|Hin]%elem_of_app.
      * apply Hev in Hin as (Ha & Hd & Hf). split; [done|]. split; [|done].
        by eapply cascade_step_flag.
      * apply Hev' in Hin as (Ha & Hd & Hf). split; [|split; [done|]].
        -- destruct (isUnsubscribed (deref st1 b)) eqn:E; [|done].
           by rewrite (cascade_step_flag _ _ _ H12 E) in Ha.
        -- rewrite Hf. by apply cascade_step_action.
Qed.

(** The primary action is called when, and only when, it is a callable. *)
Lemma unsubscribe_primary_spec this f st :
  unsubscribe_primary this f st =
    match f with
    | VFun _ None => (record (Call f (VSub this)) st, no_errors)
    | VFun _ (Some e) =>
        (record (Call f (VSub this)) st, push_error e no_errors)
    | _ => (st, no_errors)
    end.
Proof. by destruct f as [| | | | | |id [e|]| | | | |]. Qed.

Lemma cascade_step_enter this st :
  isUnsubscribed (deref st this) = false →
  cascade_step st
    (unsubscribe_primary this (_unsubscribe (deref st this))
       (store this (disposed_of (deref st this)) st)).1.
Proof.
  intros Hu. pose proof (active_lt_length _ _ Hu) as Hlt.
  set (st1 := store this (disposed_of (deref st this)) st).
  assert (Hheap : ∀ a,
    deref st1 a = deref st a ∨
    (isUnsubscribed (deref st a) = false ∧
     deref st1 a = disposed_of (deref st a))).
  { intros a. destruct (decide (this = a)) as [<-|Hne].
    - right. split; [done|]. by apply deref_store_eq.
    - left. by apply deref_store_ne. }
  assert (Hlen : length (heap st1) = length (heap st))
    by apply length_insert.
  rewrite unsubscribe_primary_spec.
  destruct (_unsubscribe (deref st this)) as [| | | | | |id thr| | | | |] eqn:Hf;
    try (split; [done..|]; exists []; split; [by rewrite app_nil_r|];
         split; [constructor|]; intros ? ? []%elem_of_nil).
  assert (cascade_step st (record (Call (VFun id thr) (VSub this)) st1)).
  { split; [done..|]. exists [Call (VFun id thr) (VSub this)].
    split; [done|]. split; [apply NoDup_singleton|].
    intros f b [= -> ->]%list_elem_of_singleton.
    split; [done|]. split; [|done].
    rewrite deref_record. unfold st1. by rewrite deref_store_eq. }
  by destruct thr.
Qed.

Lemma cascade_step_foreign u sub st :
  (∀ a, sub ≠ VSub a) → cascade_step st (call u sub st).1.
Proof.
  intros Hsub. split; [done | by left |]. exists [Call u sub].
  split; [done|]. split.
  - destruct sub as [| | | | | | | |a| | |];
      try apply NoDup_nil_2. by destruct (Hsub a).
  - intros f b [= _ <-]%list_elem_of_singleton. by destruct (Hsub b).
Qed.

Theorem unsubscribe_step fuel this st st' o :
  unsubscribe fuel this st = Some (st', o) → cascade_step st st'.
Proof.
  apply unsubscribe_cascade.
  - apply cascade_step_refl.
  - apply cascade_step_trans.
  - apply cascade_step_enter.
  - apply cascade_step_foreign.
Qed.

Lemma call_unsubscribe_step fuel sub st st' o :
  call_unsubscribe (unsubscribe fuel) sub st = Some (st', o) →
  cascade_step st st'.
Proof.
  apply call_unsubscribe_cascade.
  - apply cascade_step_foreign.
  - apply unsubscribe_step.
Qed.

Lemma unsubscribe_loop_step fuel subs acc st st' acc' :
  unsubscribe_loop (unsubscribe fuel) subs acc st = Some (st', acc') →
  cascade_step st st'.
Proof.
  apply unsubscribe_loop_cascade.
  - apply cascade_step_refl.
  - apply cascade_step_trans.
  - apply cascade_step_foreign.
  - apply unsubscribe_step.
Qed.

(** ** Termination: the fuel a cascade needs *)

Lemma active_insert h a s s' :
  h !! a = Some s → isUnsubscribed s = false → isUnsubscribed s' = true →
  S (active (<[a := s']> h)) = active h.
Proof.
  revert a. induction h as [|x h IH]; intros [|a]; simpl; try done.
  - intros [= ->] -> ->. reflexivity.
  - intros Hl Hs Hs'. rewrite <- (IH a Hl Hs Hs'). lia.
Qed.

Lemma active_le h h' :
  length h' = length h →
  (∀ a, default inert (h' !! a) = default inert (h !! a) ∨
        (isUnsubscribed (default inert (h !! a)) = false ∧
         default inert (h' !! a) = disposed_of (default inert (h !! a)))) →
  active h' ≤ active h.
Proof.
  revert h'. induction h as [|x h IH]; intros [|x' h']; simpl; try done.
  intros [= Hlen] Hall.
  pose proof (IH h' Hlen (λ a, Hall (S a))) as Hle.
  destruct (Hall 0) as [E|[Hx E]]; simpl in *.
  - subst. lia.
  - subst. rewrite Hx. simpl. lia.
Qed.

Lemma cascade_step_active_le st st' :
  cascade_step st st' → active (heap st') ≤ active (heap st).
Proof.
  intros H. apply active_le; [apply H|]. apply (step_heap _ _ H).
Qed.

Lemma active_enter this st :
  isUnsubscribed (deref st this) = false →
  S (active (heap (unsubscribe_primary this (_unsubscribe (deref st this))
                     (store this (disposed_of (deref st this)) st)).1))
  = active (heap st).
Proof.
  intros Hu. rewrite heap_unsubscribe_primary. simpl.
  eapply active_insert; [by apply active_in_heap | done | done].
Qed.

Lemma unsubscribe_loop_terminates fuel subs acc st :
  (∀ this st, active (heap st) < fuel → is_Some (unsubscribe fuel this st)) →
  active (heap st) < fuel →
  is_Some (unsubscribe_loop (unsubscribe fuel) subs acc st).
Proof.
  intros Hself. revert acc st.
  induction subs as [|sub rest IH]; intros acc st Hlt; simpl; [done|].
  destruct (isObject sub); [|by apply IH].
  assert (is_Some (call_unsubscribe (unsubscribe fuel) sub st)) as [[st' o] Hc].
  { destruct sub; simpl; try done. by apply Hself. }
  rewrite Hc.
  pose proof (cascade_step_active_le _ _ (call_unsubscribe_step _ _ _ _ _ Hc)).
  destruct o; apply IH; lia.
Qed.

(** [unsubscribe] returns or throws whenever the fuel exceeds the number of
    active instances, whatever the shape of the graph of children (cycles
    included). *)
Theorem unsubscribe_terminates fuel this st :
  active (heap st) < fuel → is_Some (unsubscribe fuel this st).
Proof.
  revert this st. induction fuel as [|fuel IH]; intros this st Hlt; [lia|].
  destruct (isUnsubscribed (deref st this)) eqn:Hu.
  - by rewrite unsubscribe_disposed.
  - rewrite unsubscribe_active by done. cbv zeta.
    pose proof (active_enter this st Hu) as Hact.
    destruct (unsubscribe_primary _ _ _) as [st2 acc]; simpl in *.
    destruct (_subscriptions (deref st this)) as [subs|]; [|done].
    destruct (unsubscribe_loop_terminates fuel subs acc st2 IH)
      as [[st3 acc'] ->]; [lia | done].
Qed.

Lemma unsubscribe_loop_fuel_mono (self self' : addr → State → option (State * Outcome))
    subs acc st r :
  (∀ b st r, self b st = Some r → self' b st = Some r) →
  unsubscribe_loop self subs acc st = Some r →
  unsubscribe_loop self' subs acc st = Some r.
Proof.
  intros Hself. revert acc st.
  induction subs as [|sub rest IH]; intros acc st; simpl; [done|].
  destruct (isObject sub); [|apply IH].
  destruct (call_unsubscribe self sub st) as [[st' o]|] eqn:Hc; [|done].
  assert (call_unsubscribe self' sub st = Some (st', o)) as ->.
  { destruct sub; simpl in *; try done. by apply Hself. }
  destruct o; apply IH.
Qed.

(** More fuel never changes a result. *)
Theorem unsubscribe_fuel_mono fuel fuel' this st r :
  fuel ≤ fuel' →
  unsubscribe fuel this st = Some r → unsubscribe fuel' this st = Some r.
Proof.
  revert fuel' this st r.
  induction fuel as [|fuel IH]; intros [|fuel'] this st r Hle; try done; [lia|].
  destruct (isUnsubscribed (deref st this)) eqn:Hu.
  - by rewrite !unsubscribe_disposed.
  - rewrite !unsubscribe_active by done. cbv zeta.
    destruct (unsubscribe_primary _ _ _) as [st2 acc]; simpl.
    destruct (_subscriptions (deref st this)) as [subs|]; [|done].
    destruct (unsubscribe_loop (unsubscribe fuel) _ _ _) as [[st3 acc']|] eqn:Hl;
      [|done].
    assert (Hself : ∀ b st0 r0, unsubscribe fuel b st0 = Some r0 →
                                unsubscribe fuel' b st0 = Some r0)
      by (intros b st0 r0; apply IH; lia).
    by rewrite (unsubscribe_loop_fuel_mono _ _ _ _ _ _ Hself Hl).
Qed.

Corollary unsubscribe_fuel_irrelevant fuel fuel' this st :
  active (heap st) < fuel → active (heap st) < fuel' →
  unsubscribe fuel this st = unsubscribe fuel' this st.
Proof.
  intros H H'.
  destruct (unsubscribe_terminates fuel this st H) as [r Hr].
  destruct (unsubscribe_terminates fuel' this st H') as [r' Hr'].
  destruct (decide (fuel ≤ fuel')) as [Hle|Hnle].
  - rewrite Hr. symmetry. by eapply unsubscribe_fuel_mono.
  - rewrite Hr'. eapply unsubscribe_fuel_mono; [|exact Hr']. lia.
Qed.

(** ** Scenarios of the specification, evaluated *)

(** [p] has no primary action; [p.add(f)] where [f] throws ["a"]; [p.add(g)]
    where [g] succeeds; [p.unsubscribe()] throws the aggregate of [["a"]],
    having called [f] and [g] once each, and a second call does nothing. *)
Example scenario_idempotent :
  let '(p, st) := scenario_p in
  ∃ st1,
    and_then (add 3 p scenario_f st) (λ st,
    and_then (add 3 p scenario_g st) (λ st,
      unsubscribe 3 p st))
    = Some (st1, Throws (UnsubscriptionError [VStr "a"])) ∧
    log st1 = [Call scenario_f (VSub 2); Call scenario_g (VSub 3)] ∧
    unsubscribe 3 p st1 = Some (st1, Returns).
Proof. vm_compute. eexists. split; [reflexivity|]. split; reflexivity. Qed.

(** Nested: [p.add(q)]; [q.add(g)] where [g] throws ["x"];
    [p.unsubscribe()] throws the aggregate of [["x"]], not an aggregate that
    wraps one. *)
Example scenario_nested :
  let '(p, st) := new_Subscription VUndefined initial in
  let '(q, st) := new_Subscription VUndefined st in
  ∃ st1,
    and_then (add 3 p (VSub q) st) (λ st,
    and_then (add 3 q (VFun 1 (Some (VStr "x"))) st) (λ st,
      unsubscribe 3 p st))
    = Some (st1, Throws (UnsubscriptionError [VStr "x"])).
Proof. vm_compute. by eexists. Qed.

(** ** C2: idempotency *)

(** C2. For every instance [r] and every state, [r.unsubscribe()] ends
    (normally or by throwing its aggregate); the calls it makes run the
    primary action of no instance twice; and a second [r.unsubscribe()]
    returns at once: it throws nothing and leaves the heap and the log, hence
    every teardown, untouched. *)
Theorem unsubscribe_idempotent (fuel fuel' : nat) (r : addr) (st : State) :
  active (heap st) < fuel → 0 < fuel' →
  ∃ st1 o1 evs,
    unsubscribe fuel r st = Some (st1, o1) ∧
    log st1 = log st ++ evs ∧
    NoDup (receivers evs) ∧
    isUnsubscribed (deref st1 r) = true ∧
    unsubscribe fuel' r st1 = Some (st1, Returns).
Proof.
  intros Hfuel Hfuel'.
  destruct (unsubscribe_terminates fuel r st Hfuel) as [[st1 o1] Hrun].
  pose proof (unsubscribe_step _ _ _ _ _ Hrun) as Hstep.
  destruct (step_log _ _ Hstep) as (evs & Hlog & Hnd & _).
  assert (Hflag : isUnsubscribed (deref st1 r) = true).
  { destruct fuel as [|fuel]; [lia|].
    destruct (isUnsubscribed (deref st r)) eqn:Hu.
    - by eapply cascade_step_flag.
    - destruct (step_heap _ _ Hstep r) as [E|[_ ->]]; [|done].
      exfalso. rewrite unsubscribe_active in Hrun by done. cbv zeta in Hrun.
      pose proof (cascade_step_enter r st Hu) as Henter.
      destruct (unsubscribe_primary _ _ _) as [st2 acc] eqn:Hp; simpl in *.
      assert (isUnsubscribed (deref st2 r) = true) as H2.
      { replace st2 with (unsubscribe_primary r (_unsubscribe (deref st r))
                            (store r (disposed_of (deref st r)) st)).1
          by (by rewrite Hp).
        rewrite unsubscribe_primary_spec.
        pose proof (active_lt_length _ _ Hu).
        destruct (_unsubscribe (deref st r)) as [| | | | | |? [?|]| | | | |];
          simpl; rewrite ?deref_record; by rewrite deref_store_eq. }
      assert (cascade_step st2 st1) as H21.
      { destruct (_subscriptions (deref st r)).
        - destruct (unsubscribe_loop _ _ _ _) as [[st3 acc']|] eqn:Hl; [|done].
          injection Hrun as <- _. by eapply unsubscribe_loop_step.
        - injection Hrun as <- _. apply cascade_step_refl. }
      apply (cascade_step_flag _ _ r H21) in H2. congruence. }
  exists st1, o1, evs. repeat split; try done.
  destruct fuel' as [|fuel']; [lia|]. by apply unsubscribe_disposed.
Qed.

Lemma unsubscribe_idempotent_witness :
  (active (heap state_parent_child) < 3 ∧ 0 < 1) ∧
  ∃ st1 o1 evs,
    unsubscribe 3 2 state_parent_child = Some (st1, o1) ∧
    log st1 = log state_parent_child ++ evs ∧
    NoDup (receivers evs) ∧
    isUnsubscribed (deref st1 2) = true ∧
    unsubscribe 1 2 st1 = Some (st1, Returns).
Proof.
  assert (H1 : active (heap state_parent_child) < 3) by (vm_compute; lia).
  assert (H2 : 0 < 1) by lia.
  split; [done|].
  exact (unsubscribe_idempotent 3 1 2 state_parent_child H1 H2).
Defined.

(** ** Strict equality *)

Lemma strict_eq_true x y : strict_eq x y = true → x = y.
Proof.
  unfold strict_eq. destruct x; try done; by intros ?%Value_eqb_eq.
Qed.



Lemma strict_eq_VSub a b : strict_eq (VSub a) (VSub b) = bool_decide (a = b).
Proof. reflexivity. Qed.

(** ** What [unsubscribe] leaves of the instance it is called on *)

Lemma unsubscribe_primary_marked this f st :
  this < length (heap st) →
  deref (unsubscribe_primary this f (store this (disposed_of (deref st this)) st)).1
        this
  = disposed_of (deref st this).
Proof.
  intros Hlt. rewrite unsubscribe_primary_spec.
  destruct f as [| | | | | |? [?|]| | | | |];
    simpl; rewrite ?deref_record; by rewrite deref_store_eq.
Qed.

Lemma unsubscribe_marks fuel this st st' o :
  unsubscribe fuel this st = Some (st', o) →
  isUnsubscribed (deref st' this) = true.
Proof.
  intros Hrun. pose proof (unsubscribe_step _ _ _ _ _ Hrun) as Hstep.
  destruct fuel as [|fuel]; [done|].
  destruct (isUnsubscribed (deref st this)) eqn:Hu.
  { by eapply cascade_step_flag. }
  rewrite unsubscribe_active in Hrun by done. cbv zeta in Hrun.
  pose proof (unsubscribe_primary_marked this (_unsubscribe (deref st this)) st
                (active_lt_length _ _ Hu)) as Hm.
  destruct (unsubscribe_primary _ _ _) as [st2 acc]; simpl in *.
  assert (cascade_step st2 st') as H2.
  { destruct (_subscriptions (deref st this)).
    - destruct (unsubscribe_loop _ _ _ _) as [[st3 acc']|] eqn:Hl; [|done].
      injection Hrun as <- _. by eapply unsubscribe_loop_step.
    - injection Hrun as <- _. apply cascade_step_refl. }
  apply (cascade_step_flag _ _ this H2). by rewrite Hm.
Qed.

Lemma unsubscribe_leaves fuel this st st' o :
  isUnsubscribed (deref st this) = false →
  unsubscribe fuel this st = Some (st', o) →
  deref st' this = disposed_of (deref st this).
Proof.
  intros Hu Hrun. pose proof (unsubscribe_marks _ _ _ _ _ Hrun) as Hm.
  destruct (step_heap _ _ (unsubscribe_step _ _ _ _ _ Hrun) this) as [E|[_ E]];
    congruence.
Qed.

(** ** The cases of [add] *)

Lemma length_new_Subscription arg st :
  length (heap (new_Subscription arg st).2) = S (length (heap st)).
Proof. simpl. rewrite length_app. simpl. lia. Qed.

Lemma deref_new_Subscription_old arg st a :
  a < length (heap st) → deref (new_Subscription arg st).2 a = deref st a.
Proof.
  intros Hlt. unfold deref; simpl. by rewrite lookup_app_l.
Qed.

Lemma deref_new_Subscription_new arg st :
  deref (new_Subscription arg st).2 (length (heap st)) =
    {| isUnsubscribed := false;
       _unsubscribe := if truthy arg then arg else VUndefined;
       _subscriptions := None |}.
Proof.
  unfold deref; simpl. by rewrite list_lookup_middle.
Qed.

Lemma add_callable fuel this id thr st :
  add fuel this (VFun id thr) st =
    let st0 := (new_Subscription (VFun id thr) st).2 in
    let w := length (heap st) in
    if isUnsubscribed (deref st0 this) then unsubscribe fuel w st0
    else Some (push_subscription this (VSub w) st0, Returns).
Proof.
  pose proof (deref_new_Subscription_new (VFun id thr) st) as Hnew.
  destruct thr; unfold add, add_object; simpl in *; by rewrite Hnew.
Qed.

Lemma add_instance fuel this c st :
  add fuel this (VSub c) st =
    if bool_decide (c = this) || bool_decide (c = EMPTY)
       || isUnsubscribed (deref st c)
    then Some (st, Returns)
    else if isUnsubscribed (deref st this) then unsubscribe fuel c st
    else Some (push_subscription this (VSub c) st, Returns).
Proof.
  unfold add, add_object; simpl.
  destruct (bool_decide (c = this)), (bool_decide (c = EMPTY)); simpl; try done.
  by rewrite orb_false_r.
Qed.

Lemma add_foreign fuel this id i u st :
  add fuel this (VObj id i u) st =
    if truthy i || negb (isFunction u) then Some (st, Returns)
    else if isUnsubscribed (deref st this) then
      Some (call u (VObj id i u) st)
    else Some (push_subscription this (VObj id i u) st, Returns).
Proof. reflexivity. Qed.

(** Every result of [add]: after possibly wrapping a callable in a new
    instance, either the state moves by a cascade (not at all, or by the
    immediate disposal of the candidate), or [this] is active and the
    candidate, an object other than [this], is appended to its children. *)
Lemma add_inv fuel this teardown st st' o :
  this < length (heap st) →
  add fuel this teardown st = Some (st', o) →
  ∃ st0 sub,
    (st0 = st ∧ sub = teardown ∨
     isFunction teardown = true ∧
     st0 = (new_Subscription teardown st).2 ∧ sub = VSub (length (heap st))) ∧
    (cascade_step st0 st' ∨
     isUnsubscribed (deref st0 this) = false ∧
     st' = push_subscription this sub st0 ∧ o = Returns ∧
     sub ≠ VSub this ∧ isObject sub = true).
Proof.
  intros Hthis Hrun.
  destruct teardown as [| |b|z| |s|id thr|id i u|c|l|t|];
    try (exists st; eexists; (split; [left; split; reflexivity|]);
         unfold add, add_object in Hrun; simpl in Hrun;
         repeat case_match; injection Hrun as <- <-;
         left; apply cascade_step_refl).
  - rewrite add_callable in Hrun. cbv zeta in Hrun.
    exists (new_Subscription (VFun id thr) st).2, (VSub (length (heap st))).
    split; [by right|].
    destruct (isUnsubscribed (deref _ this)) eqn:Hu.
    + left. by eapply unsubscribe_step.
    + injection Hrun as <- <-. right. repeat split; try done.
      intros [= <-]. lia.
  - rewrite add_foreign in Hrun. exists st, (VObj id i u). split; [by left|].
    destruct (truthy i || negb (isFunction u)).
    { injection Hrun as <- <-. left. apply cascade_step_refl. }
    destruct (isUnsubscribed (deref st this)) eqn:Hu.
    + injection Hrun as <- _. left.
      by apply (cascade_step_foreign u (VObj id i u) st).
    + injection Hrun as <- <-. by right.
  - rewrite add_instance in Hrun. exists st, (VSub c). split; [by left|].
    destruct (bool_decide (c = this)) eqn:Hc; simpl in Hrun.
    { injection Hrun as <- <-. left. apply cascade_step_refl. }
    apply bool_decide_eq_false in Hc.
    destruct (bool_decide (c = EMPTY) || isUnsubscribed (deref st c)).
    { injection Hrun as <- <-. left. apply cascade_step_refl. }
    destruct (isUnsubscribed (deref st this)) eqn:Hu.
    + left. by eapply unsubscribe_step.
    + injection Hrun as <- <-. right. repeat split; try done. congruence.
Qed.

(** [add] on an unsubscribed instance leaves that instance as it is. *)
Lemma add_disposed_this fuel this teardown st st' o :
  this < length (heap st) →
  isUnsubscribed (deref st this) = true →
  add fuel this teardown st = Some (st', o) →
  deref st' this = deref st this.
Proof.
  intros Hlt Hu Hrun.
  destruct (add_inv _ _ _ _ _ _ Hlt Hrun) as (st0 & sub & Hst0 & Hres).
  assert (deref st0 this = deref st this) as E0.
  { destruct Hst0 as [[-> _]|(_ & -> & _)]; [done|].
    by apply deref_new_Subscription_old. }
  destruct Hres as [Hstep|(Hact & _)]; [|congruence].
  rewrite <- E0. apply (cascade_step_disposed _ _ _ Hstep). congruence.
Qed.

Lemma remove_no_children this v st :
  _subscriptions (deref st this) = None → remove this v st = st.
Proof.
  intros Hn. unfold remove. rewrite Hn. by case_match.
Qed.

(** ** C5: what the instance holds after [unsubscribe] *)

(** C5, the claim as stated fails: an instance constructed with the primary
    action [scenario_g] still holds it in [_unsubscribe] after its
    [unsubscribe()] has returned. *)
Lemma unsubscribe_keeps_primary_action :
  unsubscribe 1 1 state_with_action
    = Some (state_with_action_unsubscribed, Returns) ∧
  _unsubscribe (deref state_with_action_unsubscribed 1) = scenario_g ∧
  _unsubscribe (deref state_with_action_unsubscribed 1) ≠ VUndefined.
Proof. by vm_compute. Qed.

(** C5, amended. After the first [unsubscribe()] of an instance [r] has
    returned or thrown, [r] is marked and its [_subscriptions] is null, while
    its [_unsubscribe] is the callable it was; and no later [add], [remove]
    or [unsubscribe] on [r] changes [r] again, so none can bring the former
    children back or run the kept action. *)
Theorem unsubscribe_releases_children (fuel : nat) (r : addr) (st : State) :
  isUnsubscribed (deref st r) = false →
  active (heap st) < fuel →
  ∃ st1 o1,
    unsubscribe fuel r st = Some (st1, o1) ∧
    isUnsubscribed (deref st1 r) = true ∧
    _subscriptions (deref st1 r) = None ∧
    _unsubscribe (deref st1 r) = _unsubscribe (deref st r) ∧
    (∀ fuel' teardown st2 o2,
       add fuel' r teardown st1 = Some (st2, o2) →
       deref st2 r = deref st1 r) ∧
    (∀ subscription, remove r subscription st1 = st1) ∧
    (∀ fuel', unsubscribe (S fuel') r st1 = Some (st1, Returns)).
Proof.
  intros Hu Hfuel.
  destruct (unsubscribe_terminates fuel r st Hfuel) as [[st1 o1] Hrun].
  pose proof (unsubscribe_leaves _ _ _ _ _ Hu Hrun) as Hr.
  pose proof (step_length _ _ (unsubscribe_step _ _ _ _ _ Hrun)) as Hlen.
  pose proof (active_lt_length _ _ Hu) as Hlt.
  exists st1, o1. rewrite Hr. repeat split; try done.
  - intros fuel' teardown st2 o2 Hadd. rewrite <- Hr.
    eapply add_disposed_this; [lia | by rewrite Hr | done].
  - intros v. apply remove_no_children. by rewrite Hr.
  - intros fuel'. apply unsubscribe_disposed. by rewrite Hr.
Qed.

Lemma unsubscribe_releases_children_witness :
  (isUnsubscribed (deref state_with_action 1) = false ∧
   active (heap state_with_action) < 2) ∧
  ∃ st1 o1,
    unsubscribe 2 1 state_with_action = Some (st1, o1) ∧
    isUnsubscribed (deref st1 1) = true ∧
    _subscriptions (deref st1 1) = None ∧
    _unsubscribe (deref st1 1) = _unsubscribe (deref state_with_action 1) ∧
    (∀ fuel' teardown st2 o2,
       add fuel' 1 teardown st1 = Some (st2, o2) →
       deref st2 1 = deref st1 1) ∧
    (∀ subscription, remove 1 subscription st1 = st1) ∧
    (∀ fuel', unsubscribe (S fuel') 1 st1 = Some (st1, Returns)).
Proof.
  assert (H1 : isUnsubscribed (deref state_with_action 1) = false)
    by reflexivity.
  assert (H2 : active (heap state_with_action) < 2) by (vm_compute; lia).
  split; [done|].
  exact (unsubscribe_releases_children 2 1 state_with_action H1 H2).
Defined.

(** ** Invariants of the reachable states *)

(** Induction over runs: a property of [initial] that every operation
    preserves holds of every reachable state. *)
Lemma reachable_ind (P : State → Prop) :
  P initial →
  (∀ fuel op st st', P st → run_op fuel op st = Some st' → P st') →
  ∀ st, reachable st → P st.
Proof.
  intros Hinit Hop st (fuel & ops & Hrun).
  revert Hrun. generalize initial Hinit. clear Hinit.
  induction ops as [|op ops IH]; intros st0 H0; simpl.
  - by intros [= <-].
  - destruct (run_op fuel op st0) as [st1|] eqn:Hst1; [|done].
    apply IH. by eapply Hop.
Qed.

Lemma reachable_initial : reachable initial.
Proof. by exists 0, []. Qed.

Lemma EMPTY_inert_deref st : EMPTY_inert st → deref st EMPTY = inert.
Proof. unfold EMPTY_inert, deref. by intros ->. Qed.

Lemma EMPTY_inert_cascade_step st st' :
  cascade_step st st' → EMPTY_inert st → EMPTY_inert st'.
Proof.
  intros Hstep He. pose proof (EMPTY_inert_deref _ He) as Hd.
  assert (deref st' EMPTY = inert) as Hd'.
  { rewrite <- Hd. apply (cascade_step_disposed _ _ _ Hstep). by rewrite Hd. }
  unfold EMPTY_inert, deref in *.
  destruct (heap st' !! EMPTY) eqn:E; [simpl in Hd'; by subst|].
  apply lookup_ge_None in E. apply lookup_lt_Some in He.
  rewrite (step_length _ _ Hstep) in E. lia.
Qed.

Lemma EMPTY_inert_new_Subscription arg st :
  EMPTY_inert st → EMPTY_inert (new_Subscription arg st).2.
Proof.
  unfold EMPTY_inert; simpl. intros He.
  rewrite lookup_app_l; [done|]. by eapply lookup_lt_Some.
Qed.

Lemma EMPTY_inert_store this s st :
  this ≠ EMPTY → EMPTY_inert st → EMPTY_inert (store this s st).
Proof.
  unfold EMPTY_inert; simpl. intros Hne He. by rewrite list_lookup_insert_ne.
Qed.

Lemma EMPTY_inert_add fuel this teardown st st' o :
  this < length (heap st) →
  add fuel this teardown st = Some (st', o) →
  EMPTY_inert st → EMPTY_inert st'.
Proof.
  intros Hlt Hrun He.
  destruct (add_inv _ _ _ _ _ _ Hlt Hrun) as (st0 & sub & Hst0 & Hres).
  assert (EMPTY_inert st0) as He0.
  { destruct Hst0 as [[-> _]|(_ & -> & _)]; [done|].
    by apply EMPTY_inert_new_Subscription. }
  destruct Hres as [Hstep|(Hact & -> & _)].
  - by eapply EMPTY_inert_cascade_step.
  - apply EMPTY_inert_store; [|done].
    intros ->. by rewrite (EMPTY_inert_deref _ He0) in Hact.
Qed.

Lemma EMPTY_inert_remove this v st :
  EMPTY_inert st → EMPTY_inert (remove this v st).
Proof.
  intros He. unfold remove. case_match; [done|].
  destruct (_subscriptions (deref st this)) as [subs|] eqn:Hs; [|done].
  case_match; [|done].
  apply EMPTY_inert_store; [|done].
  intros ->. by rewrite (EMPTY_inert_deref _ He) in Hs.
Qed.

Lemma EMPTY_inert_run_op fuel op st st' :
  EMPTY_inert st → run_op fuel op st = Some st' → EMPTY_inert st'.
Proof.
  intros He. destruct op as [arg|this|this teardown|this v]; simpl.
  - intros [= <-]. by apply EMPTY_inert_new_Subscription.
  - case_match; [|done].
    destruct (unsubscribe fuel this st) as [[st1 o]|] eqn:Hrun; [|done].
    intros [= <-]. eapply EMPTY_inert_cascade_step; [|done].
    by eapply unsubscribe_step.
  - unfold exists_in. case_bool_decide; [|done].
    destruct (add fuel this teardown st) as [[st1 o]|] eqn:Hrun; [|done].
    intros [= <-]. by eapply EMPTY_inert_add.
  - case_match; [|done]. intros [= <-]. by apply EMPTY_inert_remove.
Qed.

Lemma EMPTY_inert_reachable st : reachable st → EMPTY_inert st.
Proof.
  apply reachable_ind; [done|].
  intros fuel op st0 st1. apply EMPTY_inert_run_op.
Qed.

Lemma EMPTY_inert_run_ops fuel ops st st' :
  EMPTY_inert st → run_ops fuel ops st = Some st' → EMPTY_inert st'.
Proof.
  revert st. induction ops as [|op ops IH]; intros st He; simpl.
  - by intros [= <-].
  - destruct (run_op fuel op st) as [st1|] eqn:Hop; [|done].
    apply IH. by eapply EMPTY_inert_run_op.
Qed.

(** ** C6: the sentinel [EMPTY] *)

(** C6, the claim as stated fails: [EMPTY.add(c)] for an instance [c] that is
    not unsubscribed is not a no-op; it unsubscribes [c] and so runs the
    primary action of [c]. *)
Lemma add_on_EMPTY_disposes_argument :
  reachable state_with_action ∧
  isUnsubscribed (deref state_with_action 1) = false ∧
  add 2 EMPTY (VSub 1) state_with_action
    = Some (state_with_action_unsubscribed, Returns) ∧
  isUnsubscribed (deref state_with_action_unsubscribed 1) = true ∧
  log state_with_action = [] ∧
  log state_with_action_unsubscribed = [Call scenario_g (VSub 1)].
Proof.
  split; [by exists 0, [OpNew scenario_g]|]. by vm_compute.
Qed.

(** C6, amended. In every reachable state [EMPTY] is unsubscribed and has no
    children, and stays so whatever is done next; [EMPTY.unsubscribe()] is a
    no-op; [r.add(EMPTY)] is a no-op for every [r]; [EMPTY.add(teardown)]
    never stores anything in [EMPTY], but it is not a no-op: given an
    instance that is not unsubscribed, it is that instance's
    [unsubscribe()]. *)
Theorem EMPTY_neutral (st : State) :
  reachable st →
  isUnsubscribed (deref st EMPTY) = true ∧
  children st EMPTY = [] ∧
  (∀ fuel ops st', run_ops fuel ops st = Some st' →
     isUnsubscribed (deref st' EMPTY) = true ∧ children st' EMPTY = []) ∧
  (∀ fuel, unsubscribe (S fuel) EMPTY st = Some (st, Returns)) ∧
  (∀ fuel r, add fuel r (VSub EMPTY) st = Some (st, Returns)) ∧
  (∀ fuel teardown st' o,
     add fuel EMPTY teardown st = Some (st', o) →
     isUnsubscribed (deref st' EMPTY) = true ∧ children st' EMPTY = []) ∧
  (∀ fuel c, isUnsubscribed (deref st c) = false →
     add fuel EMPTY (VSub c) st = unsubscribe fuel c st).
Proof.
  intros He%EMPTY_inert_reachable.
  pose proof (EMPTY_inert_deref _ He) as Hd.
  assert (Hinert : ∀ st', EMPTY_inert st' →
            isUnsubscribed (deref st' EMPTY) = true ∧ children st' EMPTY = []).
  { intros st' He'. unfold children. by rewrite (EMPTY_inert_deref _ He'). }
  split_and!; try by apply Hinert.
  - intros fuel ops st' Hrun. apply Hinert. by eapply EMPTY_inert_run_ops.
  - intros fuel. apply unsubscribe_disposed. by rewrite Hd.
  - intros fuel r. rewrite add_instance.
    by rewrite (bool_decide_eq_true_2 (EMPTY = EMPTY)), orb_true_r.
  - intros fuel teardown st' o Hadd. apply Hinert.
    eapply EMPTY_inert_add; [|exact Hadd|exact He]. by eapply lookup_lt_Some.
  - intros fuel c Hc. rewrite add_instance, Hd, Hc.
    assert (c ≠ EMPTY) by (intros ->; by rewrite Hd in Hc).
    by rewrite !bool_decide_eq_false_2.
Qed.

Lemma EMPTY_neutral_witness :
  reachable state_with_action ∧
  isUnsubscribed (deref state_with_action EMPTY) = true ∧
  children state_with_action EMPTY = [] ∧
  (∀ fuel ops st', run_ops fuel ops state_with_action = Some st' →
     isUnsubscribed (deref st' EMPTY) = true ∧ children st' EMPTY = []) ∧
  (∀ fuel, unsubscribe (S fuel) EMPTY state_with_action
             = Some (state_with_action, Returns)) ∧
  (∀ fuel r, add fuel r (VSub EMPTY) state_with_action
               = Some (state_with_action, Returns)) ∧
  (∀ fuel teardown st' o,
     add fuel EMPTY teardown state_with_action = Some (st', o) →
     isUnsubscribed (deref st' EMPTY) = true ∧ children st' EMPTY = []) ∧
  (∀ fuel c, isUnsubscribed (deref state_with_action c) = false →
     add fuel EMPTY (VSub c) state_with_action
       = unsubscribe fuel c state_with_action).
Proof.
  assert (H1 : reachable state_with_action)
    by (exists 0, [OpNew scenario_g]; reflexivity).
  split; [done|].
  exact (EMPTY_neutral state_with_action H1).
Defined.

(** ** C7: [add] on an unsubscribed instance *)

(** [unsubscribe] of an instance without children whose primary action is a
    callable: it is marked, the callable is called once, and what the
    callable throws comes back as an aggregate of one. *)
Lemma unsubscribe_leaf fuel w id thr st :
  deref st w = {| isUnsubscribed := false;
                  _unsubscribe := VFun id thr;
                  _subscriptions := None |} →
  unsubscribe (S fuel) w st =
    Some (record (Call (VFun id thr) (VSub w))
            (store w (disposed_of (deref st w)) st),
          match thr with
          | None => Returns
          | Some e => Throws (UnsubscriptionError [e])
          end).
Proof.
  intros Hw. rewrite unsubscribe_active by by rewrite Hw.
  cbv zeta. rewrite unsubscribe_primary_spec, Hw. simpl. by destruct thr.
Qed.

(** C7. Let [r] be an unsubscribed instance.  [r.add(f)] for a callable [f]
    wraps [f] in a new instance [w] and is [w.unsubscribe()]: [f] is called
    once, with [w] as receiver, before [add] returns, [w] ends unsubscribed,
    and what [f] throws reaches the caller of [add] as the aggregate that
    [w] made of it, [r] adding nothing.  [r.add(c)] for an instance [c] that
    is not unsubscribed is [c.unsubscribe()], with the same state and the
    same outcome, it ends, and [c] ends unsubscribed.  In both cases [r] is
    as it was. *)
Theorem add_on_unsubscribed_disposes_now (fuel : nat) (r : addr) (st : State) :
  EMPTY_inert st →
  r < length (heap st) →
  isUnsubscribed (deref st r) = true →
  active (heap st) < fuel →
  (∀ id thr,
     let f := VFun id thr in
     let w := length (heap st) in
     ∃ st',
       add fuel r f st =
         Some (st', match thr with
                    | None => Returns
                    | Some e => Throws (UnsubscriptionError [e])
                    end) ∧
       add fuel r f st = unsubscribe fuel w (new_Subscription f st).2 ∧
       log st' = log st ++ [Call f (VSub w)] ∧
       isUnsubscribed (deref st' w) = true ∧
       deref st' r = deref st r) ∧
  (∀ c, isUnsubscribed (deref st c) = false →
     add fuel r (VSub c) st = unsubscribe fuel c st ∧
     ∃ st' o,
       unsubscribe fuel c st = Some (st', o) ∧
       isUnsubscribed (deref st' c) = true ∧
       deref st' r = deref st r).
Proof.
  intros He Hr Hu Hfuel. split.
  - intros id thr f w.
    assert (Hadd : add fuel r f st = unsubscribe fuel w (new_Subscription f st).2).
    { unfold f. rewrite add_callable. cbv zeta.
      by rewrite deref_new_Subscription_old, Hu. }
    destruct fuel as [|fuel]; [lia|].
    pose proof (deref_new_Subscription_new f st) as Hw.
    change (truthy f) with true in Hw. cbv iota in Hw. fold w in Hw.
    eexists. split; [|split; [exact Hadd|]].
    { rewrite Hadd. by apply unsubscribe_leaf. }
    assert (w < length (heap (new_Subscription f st).2)) as Hlt.
    { simpl. rewrite length_app. simpl. unfold w. lia. }
    split; [done|]. split.
    + rewrite deref_record. by rewrite deref_store_eq.
    + rewrite deref_record, deref_store_ne by (unfold w; lia).
      by apply deref_new_Subscription_old.
  - intros c Hc.
    assert (c ≠ r) by congruence.
    assert (c ≠ EMPTY) by (intros ->; by rewrite (EMPTY_inert_deref _ He) in Hc).
    split.
    { rewrite add_instance, Hc, Hu. by rewrite !bool_decide_eq_false_2. }
    destruct (unsubscribe_terminates fuel c st Hfuel) as [[st' o] Hrun].
    exists st', o. split; [done|]. split.
    + by eapply unsubscribe_marks.
    + eapply cascade_step_disposed; [|done]. by eapply unsubscribe_step.
Qed.

Lemma add_on_unsubscribed_disposes_now_witness :
  (EMPTY_inert state_with_action ∧
   EMPTY < length (heap state_with_action) ∧
   isUnsubscribed (deref state_with_action EMPTY) = true ∧
   active (heap state_with_action) < 2) ∧
  (∀ id thr,
     let f := VFun id thr in
     let w := length (heap state_with_action) in
     ∃ st',
       add 2 EMPTY f state_with_action =
         Some (st', match thr with
                    | None => Returns
                    | Some e => Throws (UnsubscriptionError [e])
                    end) ∧
       add 2 EMPTY f state_with_action
         = unsubscribe 2 w (new_Subscription f state_with_action).2 ∧
       log st' = log state_with_action ++ [Call f (VSub w)] ∧
       isUnsubscribed (deref st' w) = true ∧
       deref st' EMPTY = deref state_with_action EMPTY) ∧
  (∀ c, isUnsubscribed (deref state_with_action c) = false →
     add 2 EMPTY (VSub c) state_with_action
       = unsubscribe 2 c state_with_action ∧
     ∃ st' o,
       unsubscribe 2 c state_with_action = Some (st', o) ∧
       isUnsubscribed (deref st' c) = true ∧
       deref st' EMPTY = deref state_with_action EMPTY).
Proof.
  assert (H1 : EMPTY_inert state_with_action) by reflexivity.
  assert (H2 : EMPTY < length (heap state_with_action))
    by (vm_compute; lia).
  assert (H3 : isUnsubscribed (deref state_with_action EMPTY) = true)
    by reflexivity.
  assert (H4 : active (heap state_with_action) < 2) by (vm_compute; lia).
  split; [done|].
  exact (add_on_unsubscribed_disposes_now 2 EMPTY state_with_action
           H1 H2 H3 H4).
Defined.

(** ** C9: cycle safety *)

Lemma children_cascade_step st st' a :
  cascade_step st st' →
  children st' a = children st a ∨ children st' a = [].
Proof.
  intros Hstep. unfold children.
  destruct (step_heap _ _ Hstep a) as [->|[_ ->]]; [by left | by right].
Qed.

Lemma no_self_child_cascade_step st st' :
  cascade_step st st' → no_self_child st → no_self_child st'.
Proof.
  intros Hstep Hn a.
  destruct (children_cascade_step _ _ a Hstep) as [->| ->]; [apply Hn|].
  apply not_elem_of_nil.
Qed.

Lemma children_new_Subscription arg st a :
  children (new_Subscription arg st).2 a = children st a ∨
  children (new_Subscription arg st).2 a = [].
Proof.
  destruct (decide (a < length (heap st))) as [Hlt|Hge].
  - left. unfold children. by rewrite deref_new_Subscription_old.
  - right. unfold children, deref; simpl.
    destruct (decide (a = length (heap st))) as [->|Hne].
    + by rewrite list_lookup_middle.
    + rewrite lookup_ge_None_2; [done|]. rewrite length_app; simpl. lia.
Qed.

Lemma no_self_child_new_Subscription arg st :
  no_self_child st → no_self_child (new_Subscription arg st).2.
Proof.
  intros Hn a.
  destruct (children_new_Subscription arg st a) as [->| ->]; [apply Hn|].
  apply not_elem_of_nil.
Qed.

Lemma children_store_eq this s st :
  this < length (heap st) →
  children (store this s st) this = default [] (_subscriptions s).
Proof. intros Hlt. unfold children. by rewrite deref_store_eq. Qed.

Lemma children_store_ne this s st a :
  this ≠ a → children (store this s st) a = children st a.
Proof. intros Hne. unfold children. by rewrite deref_store_ne. Qed.

Lemma children_push_subscription this sub st :
  this < length (heap st) →
  children (push_subscription this sub st) this = children st this ++ [sub].
Proof. intros Hlt. unfold push_subscription. by rewrite children_store_eq. Qed.

Lemma no_self_child_add fuel this teardown st st' o :
  this < length (heap st) →
  add fuel this teardown st = Some (st', o) →
  no_self_child st → no_self_child st'.
Proof.
  intros Hlt Hrun Hn.
  destruct (add_inv _ _ _ _ _ _ Hlt Hrun) as (st0 & sub & Hst0 & Hres).
  assert (no_self_child st0 ∧ this < length (heap st0)) as [Hn0 Hlt0].
  { destruct Hst0 as [[-> _]|(_ & -> & _)]; [done|].
    split; [by apply no_self_child_new_Subscription|].
    simpl. rewrite length_app. lia. }
  destruct Hres as [Hstep|(Hact & -> & _ & Hsub & _)].
  - by eapply no_self_child_cascade_step.
  - intros a. destruct (decide (this = a)) as [<-|Hne].
    + rewrite children_push_subscription by done.
      intros [Hin|Hin%list_elem_of_singleton]%elem_of_app; [|done].
      by apply (Hn0 this).
    + unfold push_subscription. rewrite children_store_ne by done. apply Hn0.
Qed.

Lemma elem_of_delete {A} (x : A) (i : nat) (l : list A) :
  x ∈ delete i l → x ∈ l.
Proof.
  revert i. induction l as [|y l IH]; intros [|i]; simpl; try done.
  - intros H. by right.
  - intros [->|H]%elem_of_cons; [left | right; eauto].
Qed.

(** What [remove] does to the children: nothing, or the entry at the first
    index of [subscription] is taken out of the children of [this]. *)
Lemma remove_inv this subscription st :
  remove this subscription st = st ∨
  ∃ subscriptions i,
    _subscriptions (deref st this) = Some subscriptions ∧
    indexOf subscription subscriptions = Some i ∧
    remove this subscription st =
      store this {| isUnsubscribed := isUnsubscribed (deref st this);
                    _unsubscribe := _unsubscribe (deref st this);
                    _subscriptions := Some (delete i subscriptions) |} st.
Proof.
  unfold remove. case_match; [by left|].
  destruct (_subscriptions (deref st this)) as [subs|]; [|by left].
  destruct (indexOf subscription subs) as [i|] eqn:Hi; [|by left].
  right. by exists subs, i.
Qed.

Lemma no_self_child_remove this v st :
  no_self_child st → no_self_child (remove this v st).
Proof.
  intros Hn.
  destruct (remove_inv this v st) as [->|(subs & i & Hs & Hi & ->)]; [done|].
  intros a. destruct (decide (this = a)) as [<-|Hne].
  - destruct (decide (this < length (heap st))) as [Hlt|Hge].
    + rewrite children_store_eq by done. simpl.
      intros Hin%elem_of_delete. apply (Hn this). unfold children.
      by rewrite Hs.
    + unfold deref in Hs. rewrite lookup_ge_None_2 in Hs by lia. done.
  - rewrite children_store_ne by done. apply Hn.
Qed.

Lemma no_self_child_reachable st : reachable st → no_self_child st.
Proof.
  apply reachable_ind.
  { intros a. unfold children, deref, initial; simpl.
    destruct a; apply not_elem_of_nil. }
  intros fuel op st0 st1 Hn.
  destruct op as [arg|this|this teardown|this v]; simpl.
  - intros [= <-]. by apply no_self_child_new_Subscription.
  - case_match; [|done].
    destruct (unsubscribe fuel this st0) as [[st2 o]|] eqn:Hrun; [|done].
    intros [= <-]. eapply no_self_child_cascade_step; [|done].
    by eapply unsubscribe_step.
  - unfold exists_in. case_bool_decide; [|done].
    destruct (add fuel this teardown st0) as [[st2 o]|] eqn:Hrun; [|done].
    intros [= <-]. by eapply no_self_child_add.
  - case_match; [|done]. intros [= <-]. by apply no_self_child_remove.
Qed.

(** C9. In every state, [r.add(r)] returns with the state, hence the
    children of [r], unchanged, and [r.unsubscribe()] ends once the fuel
    exceeds the number of instances that are not unsubscribed; in every
    reachable state no instance is among its own children, so that none ever
    contains itself. *)
Theorem add_self_cycle_safe (fuel : nat) (r : addr) (st : State) :
  active (heap st) < fuel →
  add fuel r (VSub r) st = Some (st, Returns) ∧
  (reachable st → ∀ a, VSub a ∉ children st a) ∧
  ∃ st' o, unsubscribe fuel r st = Some (st', o).
Proof.
  intros Hfuel. split_and!.
  - rewrite add_instance. by rewrite (bool_decide_eq_true_2 (r = r)).
  - apply no_self_child_reachable.
  - destruct (unsubscribe_terminates fuel r st Hfuel) as [[st' o] Hrun].
    by exists st', o.
Qed.

Lemma add_self_cycle_safe_witness :
  (active (heap state_with_action) < 2 ∧ reachable state_with_action) ∧
  add 2 1 (VSub 1) state_with_action = Some (state_with_action, Returns) ∧
  (∀ a, VSub a ∉ children state_with_action a) ∧
  ∃ st' o, unsubscribe 2 1 state_with_action = Some (st', o).
Proof.
  assert (H1 : active (heap state_with_action) < 2) by (vm_compute; lia).
  assert (H2 : reachable state_with_action)
    by (exists 0, [OpNew scenario_g]; reflexivity).
  split; [done|].
  destruct (add_self_cycle_safe 2 1 state_with_action H1)
    as (Hadd & Hself & Hend).
  split; [exact Hadd|]. split; [exact (Hself H2) | exact Hend].
Defined.

(** The cascade ends even on a heap in which an instance is its own child
    (which no run produces): the second visit finds the flag set. *)
Example unsubscribe_self_child_terminates :
  let st := {| heap := [inert;
                        {| isUnsubscribed := false;
                           _unsubscribe := scenario_g;
                           _subscriptions := Some [VSub 1; VSub 1] |}];
               log := [] |} in
  ∃ st', unsubscribe 2 1 st = Some (st', Returns) ∧
         log st' = [Call scenario_g (VSub 1)].
Proof. vm_compute. by eexists. Qed.

(** ** C8: [remove] *)

Lemma indexOf_Some x l i :
  indexOf x l = Some i →
  l !! i = Some x ∧
  ∀ j y, j < i → l !! j = Some y → strict_eq y x = false.
Proof.
  revert i. induction l as [|z l IH]; intros i; simpl; [done|].
  destruct (strict_eq z x) eqn:Hz.
  - intros [= <-]. split; [by apply strict_eq_true in Hz as ->|].
    intros j y Hj. lia.
  - destruct (indexOf x l) as [i'|]; [|done]. intros [= <-].
    destruct (IH i' eq_refl) as [Hl Hfirst]. split; [done|].
    intros [|j] y Hj; simpl; [by intros [= <-]|].
    apply Hfirst. lia.
Qed.





(** [remove] touches nothing but the children of [this]. *)
Lemma remove_frame this v st :
  log (remove this v st) = log st ∧
  length (heap (remove this v st)) = length (heap st) ∧
  (∀ a, isUnsubscribed (deref (remove this v st) a) = isUnsubscribed (deref st a) ∧
        _unsubscribe (deref (remove this v st) a) = _unsubscribe (deref st a)) ∧
  (∀ a, a ≠ this → deref (remove this v st) a = deref st a).
Proof.
  destruct (remove_inv this v st) as [->|(subs & i & Hs & Hi & ->)]; [done|].
  split; [done|]. split; [apply length_insert|]. split.
  - intros a. destruct (decide (this = a)) as [<-|Hne].
    + destruct (decide (this < length (heap st))) as [Hlt|Hge].
      * by rewrite deref_store_eq.
      * unfold deref in Hs. by rewrite lookup_ge_None_2 in Hs by lia.
    + by rewrite deref_store_ne.
  - intros a Hne. by rewrite deref_store_ne.
Qed.




(** *** What a cascade can reach *)
















(** The scenario [p.add(c1); p.remove(c1); p.unsubscribe()]: the action of
    [c1] never runs, and [c1] is still not unsubscribed. *)
Example scenario_remove :
  ∃ st1 st2,
    add 3 1 (VSub 2) state_parent_child = Some (st1, Returns) ∧
    unsubscribe 3 1 (remove 1 (VSub 2) st1) = Some (st2, Returns) ∧
    log st2 = [] ∧
    isUnsubscribed (deref st2 2) = false.
Proof. vm_compute. by do 2 eexists. Qed.

(** Adding [c1] twice and removing it once leaves the second entry: the
    cascade then unsubscribes [c1]. *)
Example scenario_remove_first_only :
  ∃ st1 st2 st3,
    add 3 1 (VSub 2) state_parent_child = Some (st1, Returns) ∧
    add 3 1 (VSub 2) st1 = Some (st2, Returns) ∧
    children st2 1 = [VSub 2; VSub 2] ∧
    children (remove 1 (VSub 2) st2) 1 = [VSub 2] ∧
    unsubscribe 3 1 (remove 1 (VSub 2) st2) = Some (st3, Returns) ∧
    log st3 = [Call scenario_g (VSub 2)].
Proof. vm_compute. by do 3 eexists. Qed.

(** ** C10: a callable is stored as a new instance that wraps it *)

Lemma elem_of_delete_other {A} (x : A) (i : nat) (l : list A) :
  x ∈ l → l !! i ≠ Some x → x ∈ delete i l.
Proof.
  revert i. induction l as [|y l IH]; intros [|i]; simpl; try done.
  - intros [->|H]%elem_of_cons Hne; [done | done].
  - intros [->|H]%elem_of_cons Hne; [left | right; eauto].
Qed.

(** C10. Let [p] be an instance that is not unsubscribed and [f] a callable.
    [p.add(f)] returns without calling [f]; it creates an instance [w] at an
    address that was free, with [f] as primary action, and appends [w], not
    [f], to the children of [p]: [f] is among the children of no instance
    unless it was before.  A second [p.add(f)] appends another new instance.
    [p.remove(v)] for any [v] other than [w], [f] included, leaves [w] among
    the children of [p]. *)
Theorem add_callable_wraps (fuel : nat) (p : addr) (id : nat)
    (thr : option Value) (st : State) :
  isUnsubscribed (deref st p) = false →
  let f := VFun id thr in
  let w := length (heap st) in
  ∃ st1 st2,
    add fuel p f st = Some (st1, Returns) ∧
    log st1 = log st ∧
    heap st !! w = None ∧
    deref st1 w = {| isUnsubscribed := false;
                     _unsubscribe := f;
                     _subscriptions := None |} ∧
    children st1 p = children st p ++ [VSub w] ∧
    (∀ a, f ∈ children st1 a → f ∈ children st a) ∧
    add fuel p f st1 = Some (st2, Returns) ∧
    children st2 p = children st p ++ [VSub w; VSub (S w)] ∧
    (∀ v, v ≠ VSub w → VSub w ∈ children (remove p v st1) p) ∧
    VSub w ∈ children (remove p f st1) p.
Proof.
  intros Hp f w. pose proof (active_lt_length _ _ Hp) as Hlt.
  set (st0 := (new_Subscription f st).2).
  assert (Hlt0 : p < length (heap st0))
    by (unfold st0; simpl; rewrite length_app; lia).
  assert (Hp0 : deref st0 p = deref st p)
    by by apply deref_new_Subscription_old.
  set (st1 := push_subscription p (VSub w) st0).
  assert (Hadd : add fuel p f st = Some (st1, Returns)).
  { unfold f. rewrite add_callable. cbv zeta. fold f st0. by rewrite Hp0, Hp. }
  assert (Hch1 : children st1 p = children st p ++ [VSub w]).
  { unfold st1. rewrite children_push_subscription by done.
    unfold children. by rewrite Hp0. }
  assert (Hlen1 : length (heap st1) = S w).
  { unfold st1, push_subscription, st0, w; simpl.
    rewrite length_insert, length_app. simpl. lia. }
  assert (Hp1 : isUnsubscribed (deref st1 p) = false).
  { unfold st1, push_subscription. rewrite deref_store_eq by done.
    simpl. by rewrite Hp0. }
  assert (Hrem : ∀ v, v ≠ VSub w → VSub w ∈ children (remove p v st1) p).
  { intros v Hv.
    assert (VSub w ∈ children st1 p) as Hin.
    { rewrite Hch1. apply elem_of_app. right. by left. }
    destruct (remove_inv p v st1) as [->|(subs & i & Hs & Hi & ->)]; [done|].
    rewrite children_store_eq by (rewrite Hlen1; unfold w; lia). simpl.
    unfold children in Hin. rewrite Hs in Hin. simpl in Hin.
    apply elem_of_delete_other; [done|].
    destruct (indexOf_Some _ _ _ Hi) as [Hl _]. congruence. }
  exists st1, (push_subscription p (VSub (S w)) (new_Subscription f st1).2).
  split_and!; try done.
  - by apply lookup_ge_None_2.
  - unfold st1, push_subscription.
    rewrite deref_store_ne by (unfold w; lia).
    apply deref_new_Subscription_new.
  - intros a. destruct (decide (p = a)) as [<-|Hne].
    + rewrite Hch1. intros [Hin|Hin%list_elem_of_singleton]%elem_of_app;
        [done | discriminate].
    + unfold st1, push_subscription. rewrite children_store_ne by done.
      destruct (children_new_Subscription f st a) as [E|E];
        fold st0 in E; rewrite E; [done|]. by intros ?%elem_of_nil.
  - unfold f. rewrite add_callable. cbv zeta. fold f.
    rewrite Hlen1.
    rewrite deref_new_Subscription_old by (rewrite Hlen1; unfold w; lia).
    by rewrite Hp1.
  - rewrite children_push_subscription
      by (rewrite length_new_Subscription, Hlen1; unfold w; lia).
    unfold children at 1.
    rewrite deref_new_Subscription_old by (rewrite Hlen1; unfold w; lia).
    fold (children st1 p). rewrite Hch1. by rewrite <- app_assoc.
  - by apply Hrem.
Qed.

Lemma add_callable_wraps_witness :
  isUnsubscribed (deref state_parent_child 1) = false ∧
  ∃ st1 st2,
    add 3 1 scenario_f state_parent_child = Some (st1, Returns) ∧
    children st1 1 = [VSub 3] ∧
    add 3 1 scenario_f st1 = Some (st2, Returns) ∧
    children st2 1 = [VSub 3; VSub 4] ∧
    VSub 3 ∈ children (remove 1 scenario_f st1) 1.
Proof.
  assert (H1 : isUnsubscribed (deref state_parent_child 1) = false)
    by reflexivity.
  split; [done|].
  destruct (add_callable_wraps 3 1 1 (Some (VStr "a")) state_parent_child H1)
    as (st1 & st2 & Hadd & _ & _ & _ & Hch1 & _ & Hadd2 & Hch2 & _ & Hrem).
  by exists st1, st2.
Defined.

(** ** C4: the inputs [add] rejects, and those it ignores *)

(** C4, the claim as stated fails: [add] of an object that has no
    [unsubscribe] returns normally and changes nothing, on an instance that
    is not unsubscribed ([1]) and on one that is ([EMPTY]); so does [add] of
    [0]. *)
Lemma add_plain_object_ignored :
  isUnsubscribed (deref state_parent_child 1) = false ∧
  isUnsubscribed (deref state_parent_child EMPTY) = true ∧
  typeof plain_object = TObject ∧
  loose_eq_null plain_object = false ∧
  typeof_unsubscribe plain_object = TUndefined ∧
  add 3 1 plain_object state_parent_child
    = Some (state_parent_child, Returns) ∧
  add 3 EMPTY plain_object state_parent_child
    = Some (state_parent_child, Returns) ∧
  add 3 1 (VNum 0) state_parent_child = Some (state_parent_child, Returns).
Proof. by vm_compute. Qed.

(** C4, amended. Whatever the state of [this], [add] throws the usage error,
    at once and without changing anything, exactly for the truthy inputs
    that are neither callables nor objects (a non-zero number, a non-empty
    string, [true]).  It ignores, returning normally without changing
    anything, every falsy input and every object whose [unsubscribe] is not
    a callable. *)
Theorem add_usage_error (fuel : nat) (this : addr) (teardown : Value)
    (st : State) :
  (truthy teardown = true →
   typeof teardown ≠ TFunction → typeof teardown ≠ TObject →
   add fuel this teardown st = Some (st, Throws (Error teardown))) ∧
  (truthy teardown = false →
   add fuel this teardown st = Some (st, Returns)) ∧
  (typeof teardown = TObject →
   typeof_unsubscribe teardown ≠ TFunction →
   add fuel this teardown st = Some (st, Returns)).
Proof.
  split_and!.
  - intros Ht Hf Ho. unfold add. rewrite Ht.
    destruct teardown; try done; simpl in *; by repeat case_match.
  - intros Ht. unfold add. by rewrite Ht.
  - intros Ho Hu. unfold add, add_object.
    rewrite (bool_decide_eq_false_2 _ Hu). simpl. rewrite orb_true_r.
    rewrite Ho. by repeat case_match.
Qed.

Lemma add_usage_error_witness :
  ((truthy (VNum 5) = true ∧ typeof (VNum 5) ≠ TFunction ∧
    typeof (VNum 5) ≠ TObject) ∧
   add 3 1 (VNum 5) state_parent_child
     = Some (state_parent_child, Throws (Error (VNum 5)))) ∧
  (truthy (VStr EmptyString) = false ∧
   add 3 1 (VStr EmptyString) state_parent_child = Some (state_parent_child, Returns)) ∧
  ((typeof plain_object = TObject ∧
    typeof_unsubscribe plain_object ≠ TFunction) ∧
   add 3 1 plain_object state_parent_child
     = Some (state_parent_child, Returns)).
Proof.
  assert (H1 : truthy (VNum 5) = true) by reflexivity.
  assert (H2 : typeof (VNum 5) ≠ TFunction) by (simpl; discriminate).
  assert (H3 : typeof (VNum 5) ≠ TObject) by (simpl; discriminate).
  assert (H4 : truthy (VStr EmptyString) = false) by reflexivity.
  assert (H5 : typeof plain_object = TObject) by reflexivity.
  assert (H6 : typeof_unsubscribe plain_object ≠ TFunction)
    by (simpl; discriminate).
  split; [split; [by split_and!|]|split; [split; [exact H4|]|split; [by split|]]].
  - exact (proj1 (add_usage_error 3 1 (VNum 5) state_parent_child) H1 H2 H3).
  - exact (proj1 (proj2 (add_usage_error 3 1 (VStr EmptyString) state_parent_child)) H4).
  - exact (proj2 (proj2 (add_usage_error 3 1 plain_object state_parent_child))
             H5 H6).
Defined.

(** ** C1: the error flattening law *)

(** Every instance among the children has been unsubscribed when the loop
    ends, whatever the earlier children threw. *)
Lemma unsubscribe_loop_attempts_all fuel subs acc st st' acc' :
  unsubscribe_loop (unsubscribe fuel) subs acc st = Some (st', acc') →
  ∀ b, VSub b ∈ subs → isUnsubscribed (deref st' b) = true.
Proof.
  revert acc st. induction subs as [|sub rest IH]; intros acc st; simpl.
  { by intros _ b ?%elem_of_nil. }
  destruct (isObject sub) eqn:Hobj.
  - destruct (call_unsubscribe (unsubscribe fuel) sub st) as [[st1 o]|] eqn:Hc;
      [|done].
    intros Hrest b [<-|Hin]%elem_of_cons.
    + simpl in Hc. apply unsubscribe_marks in Hc.
      assert (cascade_step st1 st') as Hstep
        by (destruct o; by eapply unsubscribe_loop_step).
      by eapply cascade_step_flag.
    + destruct o; by eapply IH.
  - intros Hrest b [<-|Hin]%elem_of_cons; [done | by eapply IH].
Qed.

Theorem unsubscribe_attempts_all fuel this st st' o :
  isUnsubscribed (deref st this) = false →
  unsubscribe fuel this st = Some (st', o) →
  ∀ b, VSub b ∈ children st this → isUnsubscribed (deref st' b) = true.
Proof.
  intros Hu Hrun b Hb. destruct fuel as [|fuel]; [done|].
  rewrite unsubscribe_active in Hrun by done. cbv zeta in Hrun.
  unfold children in Hb.
  destruct (unsubscribe_primary _ _ _) as [st2 acc]; simpl in *.
  destruct (_subscriptions (deref st this)) as [subs|];
    [|by apply elem_of_nil in Hb].
  destruct (unsubscribe_loop _ _ _ _) as [[st3 acc']|] eqn:Hl; [|done].
  injection Hrun as <- _. by eapply unsubscribe_loop_attempts_all.
Qed.

(** C1. Let the instance [p] be not unsubscribed, with a primary action that
    throws [e4] and the children [c1] and [c2], in this order.  If
    unsubscribing [c1], after the primary action has run, throws the raw
    error [e1] (or, [c1] being an instance that wraps a callable, the
    aggregate of [[e1]]), and unsubscribing [c2] after that throws the
    aggregate of [[e2; e3]], then [p.unsubscribe()] throws the aggregate of
    exactly [[e4; e1; e2; e3]], in the state that the attempt on [c2] left:
    the failure of [c1] did not stop the loop, and every child that is an
    instance ends unsubscribed. *)
Theorem error_flattening (fuel : nat) (p : addr) (id4 : nat)
    (e1 e2 e3 e4 c1 c2 : Value) (o1 : Outcome) (st st2 st3 : State) :
  isUnsubscribed (deref st p) = false →
  _unsubscribe (deref st p) = VFun id4 (Some e4) →
  _subscriptions (deref st p) = Some [c1; c2] →
  isObject c1 = true → isObject c2 = true →
  call_unsubscribe (unsubscribe fuel) c1
    (record (Call (VFun id4 (Some e4)) (VSub p))
       (store p (disposed_of (deref st p)) st)) = Some (st2, o1) →
  (o1 = Throws e1 ∧ instanceof_UnsubscriptionError e1 = false ∨
   o1 = Throws (UnsubscriptionError [e1])) →
  call_unsubscribe (unsubscribe fuel) c2 st2
    = Some (st3, Throws (UnsubscriptionError [e2; e3])) →
  unsubscribe (S fuel) p st
    = Some (st3, Throws (UnsubscriptionError [e4; e1; e2; e3])) ∧
  (∀ b, VSub b ∈ [c1; c2] → isUnsubscribed (deref st3 b) = true).
Proof.
  intros Hp Hf Hs Hc1 Hc2 Hrun1 Ho1 Hrun2.
  assert (Hrun : unsubscribe (S fuel) p st
            = Some (st3, Throws (UnsubscriptionError [e4; e1; e2; e3]))).
  { rewrite unsubscribe_active by done. cbv zeta.
    rewrite unsubscribe_primary_spec, Hf, Hs. simpl.
    rewrite Hc1, Hc2, Hrun1.
    destruct Ho1 as [[-> Hraw]| ->].
    - rewrite Hrun2. by destruct e1.
    - by rewrite Hrun2. }
  split; [done|].
  intros b Hb. eapply unsubscribe_attempts_all; [exact Hp | exact Hrun |].
  unfold children. by rewrite Hs.
Qed.

Lemma error_flattening_witness :
  ∃ st3,
    unsubscribe 3 1 state_flattening
      = Some (st3, Throws (UnsubscriptionError
                             [VStr "e4"; VStr "e1"; VStr "e2"; VStr "e3"])) ∧
    children state_flattening 1 = [VSub 2; VSub 3] ∧
    isUnsubscribed (deref st3 2) = true ∧
    isUnsubscribed (deref st3 3) = true.
Proof.
  set (f4 := VFun 4 (Some (VStr "e4"))).
  set (st1 := record (Call f4 (VSub 1))
                (store 1 (disposed_of (deref state_flattening 1))
                   state_flattening)).
  set (st2 := state_after (call_unsubscribe (unsubscribe 2) (VSub 2) st1)).
  set (st3 := state_after (call_unsubscribe (unsubscribe 2) (VSub 3) st2)).
  destruct (error_flattening 2 1 4 (VStr "e1") (VStr "e2") (VStr "e3")
              (VStr "e4") (VSub 2) (VSub 3)
              (Throws (UnsubscriptionError [VStr "e1"]))
              state_flattening st2 st3) as [Hrun Hall].
  - reflexivity.
  - reflexivity.
  - reflexivity.
  - reflexivity.
  - reflexivity.
  - vm_compute. reflexivity.
  - right. reflexivity.
  - vm_compute. reflexivity.
  - exists st3. split; [exact Hrun|]. split; [reflexivity|].
    split; apply Hall.
    + left.
    + right. left.
Defined.

(** ** C3: when [unsubscribe] throws, and what *)

Lemma contribution_not_failed evs :
  existsb failed evs = false → flat_map contribution evs = [].
Proof.
  induction evs as [|[f t] evs IH]; simpl; [done|].
  intros [Hf Hr]%orb_false_elim. rewrite (IH Hr).
  by destruct f as [| | | | | |? [?|]| | | | |].
Qed.

Lemma existsb_failed_app evs evs' :
  existsb failed (evs ++ evs') = existsb failed evs || existsb failed evs'.
Proof. apply existsb_app. Qed.

Lemma call_unsubscribe_outcome self sub st st' o :
  (∀ b st st' o, self b st = Some (st', o) →
     ∃ evs, log st' = log st ++ evs ∧ o = outcome_of evs) →
  call_unsubscribe self sub st = Some (st', o) →
  ∃ evs, log st' = log st ++ evs ∧
    match o with
    | Returns => existsb failed evs = false
    | Throws err =>
        existsb failed evs = true ∧
        match err with
        | UnsubscriptionError inner => inner
        | _ => [err]
        end = flat_map contribution evs
    end.
Proof.
  intros Hself.
  destruct sub as [| | | | | | |id i u|b| | |]; simpl;
    try (intros [= <- <-]; eexists [_]; by split).
  - intros [= <- <-]. exists [Call u (VObj id i u)]. split; [done|].
    destruct u as [| | | | | |? [e|]| | | | |]; simpl; try done.
    split; [done|]. rewrite app_nil_r. by destruct e.
  - intros Hrun. destruct (Hself _ _ _ _ Hrun) as (evs & Hlog & ->).
    exists evs. split; [done|]. unfold outcome_of.
    by destruct (existsb failed evs).
Qed.

Lemma unsubscribe_loop_outcome self subs acc st st' acc' :
  (∀ b st st' o, self b st = Some (st', o) →
     ∃ evs, log st' = log st ++ evs ∧ o = outcome_of evs) →
  unsubscribe_loop self subs acc st = Some (st', acc') →
  ∃ evs, log st' = log st ++ evs ∧
    hasErrors acc' = hasErrors acc || existsb failed evs ∧
    default [] (errors acc') =
      default [] (errors acc) ++ flat_map contribution evs.
Proof.
  intros Hself. revert acc st.
  induction subs as [|sub rest IH]; intros acc st; simpl.
  { intros [= <- <-]. exists []. by rewrite !app_nil_r, orb_false_r. }
  destruct (isObject sub); [|apply IH].
  destruct (call_unsubscribe self sub st) as [[st1 o]|] eqn:Hc; [|done].
  destruct (call_unsubscribe_outcome _ _ _ _ _ Hself Hc) as (evs & Hlog & Ho).
  destruct o as [|err].
  - intros (evs' & Hlog' & Hh & He)%IH. exists (evs ++ evs').
    rewrite Hlog', Hlog, Hh, He, existsb_failed_app, flat_map_app, Ho.
    rewrite (contribution_not_failed _ Ho). by rewrite app_assoc.
  - destruct Ho as [Hf Hc'].
    intros (evs' & Hlog' & Hh & He)%IH. exists (evs ++ evs').
    rewrite Hlog', Hlog, Hh, He, existsb_failed_app, flat_map_app, Hf.
    rewrite <- Hc'. simpl. rewrite !app_assoc.
    split; [done|]. split; [by rewrite orb_true_r|]. by destruct err.
Qed.

(** [unsubscribe] throws exactly when one of the calls of its cascade
    failed, and then it throws the aggregate of the contributions of those
    calls, in the order of the calls. *)
Theorem unsubscribe_outcome fuel this st st' o :
  unsubscribe fuel this st = Some (st', o) →
  ∃ evs, log st' = log st ++ evs ∧ o = outcome_of evs.
Proof.
  revert this st st' o. induction fuel as [|fuel IH]; intros this st st' o;
    [done|].
  destruct (isUnsubscribed (deref st this)) eqn:Hu.
  { rewrite unsubscribe_disposed by done. intros [= <- <-].
    exists []. by rewrite app_nil_r. }
  rewrite unsubscribe_active by done. cbv zeta.
  rewrite unsubscribe_primary_spec.
  set (st1 := store this (disposed_of (deref st this)) st).
  assert (∃ evs0 st2 acc,
    match _unsubscribe (deref st this) with
    | VFun _ None =>
        (record (Call (_unsubscribe (deref st this)) (VSub this)) st1, no_errors)
    | VFun _ (Some e) =>
        (record (Call (_unsubscribe (deref st this)) (VSub this)) st1,
         push_error e no_errors)
    | _ => (st1, no_errors)
    end = (st2, acc) ∧
    log st2 = log st ++ evs0 ∧
    hasErrors acc = existsb failed evs0 ∧
    default [] (errors acc) = flat_map contribution evs0)
    as (evs0 & st2 & acc & -> & Hlog0 & Hh0 & He0).
  { destruct (_unsubscribe (deref st this)) as [| | | | | |id [e|]| | | | |];
      try (exists []; do 2 eexists; split; [done|]; simpl;
           by rewrite app_nil_r).
    - exists [Call (VFun id (Some e)) (VSub this)]. do 2 eexists.
      split; [done|]. split_and!; reflexivity.
    - exists [Call (VFun id None) (VSub this)]. do 2 eexists.
      split; [done|]. split_and!; reflexivity. }
  simpl.
  destruct (_subscriptions (deref st this)) as [subs|].
  - destruct (unsubscribe_loop _ _ _ _) as [[st3 acc']|] eqn:Hl; [|done].
    intros [= <- <-].
    destruct (unsubscribe_loop_outcome _ _ _ _ _ _ (IH) Hl)
      as (evs & Hlog & Hh & He).
    exists (evs0 ++ evs). split; [by rewrite Hlog, Hlog0, app_assoc|].
    unfold finish, outcome_of.
    by rewrite Hh, He, Hh0, He0, existsb_failed_app, flat_map_app.
  - intros [= <- <-]. exists evs0. split; [done|].
    unfold finish, outcome_of. by rewrite Hh0, He0.
Qed.

(** [unsubscribe] throws if and only if a call of its cascade failed, and
    what it throws is always an aggregate. *)
Corollary unsubscribe_throws_iff_failed fuel this st st' o :
  unsubscribe fuel this st = Some (st', o) →
  ∃ evs, log st' = log st ++ evs ∧
    (o ≠ Returns ↔ ∃ ev, ev ∈ evs ∧ failed ev = true) ∧
    (o = Returns ∨ ∃ l, o = Throws (UnsubscriptionError l)).
Proof.
  intros (evs & Hlog & ->)%unsubscribe_outcome. exists evs. split; [done|].
  unfold outcome_of. destruct (existsb failed evs) eqn:Hf.
  - apply existsb_exists in Hf as (ev & Hin & Hev). split; [|right; eauto].
    split; [|done]. intros _. exists ev. by rewrite list_elem_of_In.
  - split; [|by left]. split; [done|].
    intros (ev & Hin & Hev). exfalso.
    assert (existsb failed evs = true); [|congruence].
    apply existsb_exists. exists ev. by rewrite <- list_elem_of_In.
Qed.

(** The aggregate has no aggregate among its elements provided that no
    failed call of the cascade threw an aggregate itself. *)
Corollary unsubscribe_flat fuel this st st' l :
  unsubscribe fuel this st = Some (st', Throws (UnsubscriptionError l)) →
  ∃ evs, log st' = log st ++ evs ∧
    ((∀ ev, ev ∈ evs → instanceof_UnsubscriptionError (thrown ev) = false) →
     Forall (λ e, instanceof_UnsubscriptionError e = false) l).
Proof.
  intros (evs & Hlog & Ho)%unsubscribe_outcome. exists evs. split; [done|].
  intros Hraw. unfold outcome_of in Ho.
  destruct (existsb failed evs); [|done]. injection Ho as ->.
  clear Hlog. induction evs as [|[f t] evs IH]; simpl; [done|].
  apply Forall_app. split.
  - assert (Hft := Hraw (Call f t) ltac:(by left)). simpl in Hft.
    destruct f as [| | | | | |? [e|]| | | | |]; simpl;
      try (by repeat constructor).
    destruct t; try (by repeat constructor); by destruct e;
      repeat constructor.
  - apply IH. intros ev Hin. apply Hraw. by right.
Qed.

(** C3, evaluated where the code departs from the claim.  An instance whose
    primary action throws the aggregate of [["x"]] throws, from
    [unsubscribe], an aggregate whose only element is that aggregate.  The
    loop over the children flattens the same failure: when the callable is
    the [unsubscribe] of a child, the aggregate thrown is that of [["x"]]. *)
Lemma primary_aggregate_nested :
  snd <$> unsubscribe 1 1 state_primary_aggregate
    = Some (Throws (UnsubscriptionError [UnsubscriptionError [VStr "x"]])) ∧
  snd <$> unsubscribe 2 1 state_child_aggregate
    = Some (Throws (UnsubscriptionError [VStr "x"])).
Proof. by vm_compute. Qed.

(** * Further properties of the class *)

(** ** What no operation undoes *)


Lemma deref_push_subscription_ne this sub st a :
  this ≠ a → deref (push_subscription this sub st) a = deref st a.
Proof. intros Hne. unfold push_subscription. by rewrite deref_store_ne. Qed.

Lemma deref_push_subscription_eq this sub st :
  this < length (heap st) →
  deref (push_subscription this sub st) this =
    {| isUnsubscribed := isUnsubscribed (deref st this);
       _unsubscribe := _unsubscribe (deref st this);
       _subscriptions := Some (children st this ++ [sub]) |}.
Proof. intros Hlt. unfold push_subscription. by rewrite deref_store_eq. Qed.

(** What every operation keeps of an instance that exists: it still exists,
    its flag does not go back, its primary action is the same. *)
Lemma run_op_keeps fuel op st st' a :
  run_op fuel op st = Some st' →
  a < length (heap st) →
  a < length (heap st') ∧
  (isUnsubscribed (deref st a) = true → isUnsubscribed (deref st' a) = true) ∧
  _unsubscribe (deref st' a) = _unsubscribe (deref st a).
Proof.
  intros Hop Ha.
  destruct op as [arg|this|this teardown|this v]; unfold run_op in Hop.
  - assert (st' = (new_Subscription arg st).2) as -> by congruence.
    rewrite length_new_Subscription.
    rewrite deref_new_Subscription_old by done. split; [lia | done].
  - destruct (exists_in st this); [|done].
    destruct (unsubscribe fuel this st) as [[st1 o]|] eqn:Hrun; [|done].
    injection Hop as <-. apply unsubscribe_step in Hrun.
    split; [by rewrite (step_length _ _ Hrun)|].
    split; [by apply cascade_step_flag | by apply cascade_step_action].
  - unfold exists_in in Hop. case_bool_decide as Hthis; [|done].
    destruct (add fuel this teardown st) as [[st1 o]|] eqn:Hrun; [|done].
    injection Hop as <-.
    destruct (add_inv _ _ _ _ _ _ Hthis Hrun) as (st0 & sub & Hst0 & Hres).
    assert (a < length (heap st0) ∧ deref st0 a = deref st a) as [Ha0 E0].
    { destruct Hst0 as [[-> _]|(_ & -> & _)]; [done|].
      rewrite length_new_Subscription.
      by rewrite deref_new_Subscription_old; [split; [lia|]|]. }
    rewrite <- E0. destruct Hres as [Hstep|(Hact & -> & _)].
    + split; [by rewrite (step_length _ _ Hstep)|].
      split; [by apply cascade_step_flag | by apply cascade_step_action].
    + split; [unfold push_subscription; simpl; by rewrite length_insert|].
      destruct (decide (this = a)) as [<-|Hne].
      * by rewrite deref_push_subscription_eq.
      * by rewrite deref_push_subscription_ne.
  - destruct (exists_in st this); [|done]. injection Hop as <-.
    destruct (remove_frame this v st) as (_ & Hlen & Hflags & _).
    split; [by rewrite Hlen|]. destruct (Hflags a) as [-> ->]. done.
Qed.

(** X1. Whatever sequence of constructions and calls of [unsubscribe],
    [add] and [remove] a program makes, an instance that exists goes on
    existing, an instance that is unsubscribed stays unsubscribed, and the
    primary action of an instance is the one it was constructed with: no
    operation assigns [isUnsubscribed] back to false or writes
    [_unsubscribe]. *)
Theorem unsubscribed_forever (fuel : nat) (ops : list Op) (st st' : State)
    (a : addr) :
  run_ops fuel ops st = Some st' →
  a < length (heap st) →
  a < length (heap st') ∧
  (isUnsubscribed (deref st a) = true → isUnsubscribed (deref st' a) = true) ∧
  _unsubscribe (deref st' a) = _unsubscribe (deref st a).
Proof.
  revert st. induction ops as [|op ops IH]; intros st; simpl.
  { by intros [= <-]. }
  destruct (run_op fuel op st) as [st1|] eqn:Hop; [|done].
  intros Hrun Ha.
  destruct (run_op_keeps _ _ _ _ _ Hop Ha) as (Ha1 & Hf1 & He1).
  destruct (IH _ Hrun Ha1) as (Ha' & Hf' & He').
  split; [done|]. split; [auto | congruence].
Qed.

Lemma unsubscribed_forever_witness :
  (run_ops 3 ops_after_unsubscribe state_child_unsubscribed
     = Some state_ops_run ∧
   2 < length (heap state_child_unsubscribed) ∧
   isUnsubscribed (deref state_child_unsubscribed 2) = true) ∧
  2 < length (heap state_ops_run) ∧
  isUnsubscribed (deref state_ops_run 2) = true ∧
  _unsubscribe (deref state_ops_run 2)
    = _unsubscribe (deref state_child_unsubscribed 2).
Proof.
  assert (H1 : run_ops 3 ops_after_unsubscribe state_child_unsubscribed
               = Some state_ops_run) by (vm_compute; reflexivity).
  assert (H2 : 2 < length (heap state_child_unsubscribed))
    by (vm_compute; lia).
  assert (H3 : isUnsubscribed (deref state_child_unsubscribed 2) = true)
    by reflexivity.
  split; [done|].
  destruct (unsubscribed_forever 3 _ state_child_unsubscribed state_ops_run 2
              H1 H2) as (Hlen & Hflag & Haction).
  split; [exact Hlen|]. split; [exact (Hflag H3) | exact Haction].
Defined.

(** ** An unsubscribed instance holds no children *)

Lemma released_cascade_step st st' :
  cascade_step st st' → released st → released st'.
Proof.
  intros Hstep Hr a Hu.
  destruct (step_heap _ _ Hstep a) as [E|[_ E]]; rewrite E in *; [|done].
  by apply Hr.
Qed.

Lemma released_new_Subscription arg st :
  released st → released (new_Subscription arg st).2.
Proof.
  intros Hr a Hu. destruct (decide (a < length (heap st))) as [Hlt|Hge].
  - rewrite deref_new_Subscription_old in * by done. by apply Hr.
  - destruct (decide (a = length (heap st))) as [->|Hne].
    + by rewrite deref_new_Subscription_new in *.
    + unfold deref. rewrite lookup_ge_None_2; [done|].
      rewrite length_new_Subscription. lia.
Qed.

Lemma released_add fuel this teardown st st' o :
  this < length (heap st) →
  add fuel this teardown st = Some (st', o) →
  released st → released st'.
Proof.
  intros Hlt Hrun Hr.
  destruct (add_inv _ _ _ _ _ _ Hlt Hrun) as (st0 & sub & Hst0 & Hres).
  assert (released st0 ∧ this < length (heap st0)) as [Hr0 Hlt0].
  { destruct Hst0 as [[-> _]|(_ & -> & _)]; [done|].
    split; [by apply released_new_Subscription|].
    rewrite length_new_Subscription. lia. }
  destruct Hres as [Hstep|(Hact & -> & _)].
  - by eapply released_cascade_step.
  - intros a. destruct (decide (this = a)) as [<-|Hne].
    + rewrite deref_push_subscription_eq by done. simpl. congruence.
    + rewrite deref_push_subscription_ne by done. apply Hr0.
Qed.

Lemma released_remove this v st : released st → released (remove this v st).
Proof.
  intros Hr.
  destruct (remove_inv this v st) as [->|(subs & i & Hs & Hi & ->)]; [done|].
  intros a. destruct (decide (this = a)) as [<-|Hne].
  - intros Hu. exfalso.
    destruct (decide (this < length (heap st))) as [Hlt|Hge].
    + rewrite deref_store_eq in Hu by done. simpl in Hu.
      apply Hr in Hu. congruence.
    + unfold deref in Hs. by rewrite lookup_ge_None_2 in Hs by lia.
  - rewrite deref_store_ne by done. apply Hr.
Qed.

Lemma released_reachable st : reachable st → released st.
Proof.
  apply reachable_ind.
  { intros [|a]; done. }
  intros fuel op st0 st1 Hr.
  destruct op as [arg|this|this teardown|this v]; unfold run_op.
  - intros [= <-]. by apply released_new_Subscription.
  - case_match; [|done].
    destruct (unsubscribe fuel this st0) as [[st2 o]|] eqn:Hrun; [|done].
    intros [= <-]. eapply released_cascade_step; [|done].
    by eapply unsubscribe_step.
  - unfold exists_in. case_bool_decide; [|done].
    destruct (add fuel this teardown st0) as [[st2 o]|] eqn:Hrun; [|done].
    intros [= <-]. by eapply released_add.
  - case_match; [|done]. intros [= <-]. by apply released_remove.
Qed.

(** X2. In every reachable state an instance that is unsubscribed holds no
    array of children, so that the fields of an unsubscribed instance never
    change again: [remove] on it does nothing, whatever the argument, and
    [unsubscribe] on it returns with the state as it is. *)
Theorem unsubscribed_holds_no_children (st : State) (a : addr) :
  reachable st →
  isUnsubscribed (deref st a) = true →
  _subscriptions (deref st a) = None ∧
  (∀ subscription, remove a subscription st = st) ∧
  (∀ fuel, unsubscribe (S fuel) a st = Some (st, Returns)).
Proof.
  intros Hreach Hu. pose proof (released_reachable _ Hreach a Hu) as Hn.
  split; [done|]. split.
  - intros v. by apply remove_no_children.
  - intros fuel. by apply unsubscribe_disposed.
Qed.

Lemma unsubscribed_holds_no_children_witness :
  (reachable state_ops_run ∧ isUnsubscribed (deref state_ops_run 1) = true) ∧
  _subscriptions (deref state_ops_run 1) = None ∧
  (∀ subscription, remove 1 subscription state_ops_run = state_ops_run) ∧
  (∀ fuel, unsubscribe (S fuel) 1 state_ops_run
             = Some (state_ops_run, Returns)).
Proof.
  assert (H1 : reachable state_ops_run).
  { exists 3, ([OpNew VUndefined; OpNew scenario_g; OpUnsubscribe 2]
                 ++ ops_after_unsubscribe).
    vm_compute. reflexivity. }
  assert (H2 : isUnsubscribed (deref state_ops_run 1) = true) by reflexivity.
  split; [done|].
  exact (unsubscribed_holds_no_children state_ops_run 1 H1 H2).
Defined.

(** ** What a cascade calls, and what it leaves alone *)

Lemma calls_callables_refl st : calls_callables st st.
Proof.
  exists []. split; [by rewrite app_nil_r|]. by intros f b ?%elem_of_nil.
Qed.

Lemma calls_callables_trans st1 st2 st3 :
  calls_callables st1 st2 → calls_callables st2 st3 → calls_callables st1 st3.
Proof.
  intros (evs & Hl & H) (evs' & Hl' & H'). exists (evs ++ evs').
  split; [by rewrite Hl', Hl, app_assoc|].
  intros f b [Hin|Hin]%elem_of_app; eauto.
Qed.

Lemma calls_callables_enter this st :
  isUnsubscribed (deref st this) = false →
  calls_callables st
    (unsubscribe_primary this (_unsubscribe (deref st this))
       (store this (disposed_of (deref st this)) st)).1.
Proof.
  intros _. rewrite unsubscribe_primary_spec.
  destruct (_unsubscribe (deref st this)) as [| | | | | |id thr| | | | |];
    try (exists []; split; [simpl; by rewrite app_nil_r|];
         by intros f' b' ?%elem_of_nil).
  exists [Call (VFun id thr) (VSub this)].
  split; [by destruct thr|].
  by intros f' b' [= -> _]%list_elem_of_singleton.
Qed.

Lemma calls_callables_foreign u sub st :
  (∀ a, sub ≠ VSub a) → calls_callables st (call u sub st).1.
Proof.
  intros Hsub. exists [Call u sub]. split; [done|].
  intros f b [= _ <-]%list_elem_of_singleton. by destruct (Hsub b).
Qed.

Lemma unsubscribe_calls_callables fuel this st st' o :
  unsubscribe fuel this st = Some (st', o) → calls_callables st st'.
Proof.
  apply unsubscribe_cascade.
  - apply calls_callables_refl.
  - apply calls_callables_trans.
  - apply calls_callables_enter.
  - apply calls_callables_foreign.
Qed.

(** X3. [unsubscribe] ends, and every call it made with an instance as
    receiver ran the primary action of that instance: the callee is the
    [_unsubscribe] of the receiver and is a callable, the receiver was not
    unsubscribed before the call of [unsubscribe] and is unsubscribed after
    it.  So a cascade never runs the primary action of an instance that was
    unsubscribed already, and never calls a field that is not a callable. *)
Theorem cascade_runs_active_primaries (fuel : nat) (p : addr) (st : State) :
  active (heap st) < fuel →
  ∃ st' o evs,
    unsubscribe fuel p st = Some (st', o) ∧
    log st' = log st ++ evs ∧
    ∀ f b, Call f (VSub b) ∈ evs →
      f = _unsubscribe (deref st b) ∧
      isFunction f = true ∧
      isUnsubscribed (deref st b) = false ∧
      isUnsubscribed (deref st' b) = true.
Proof.
  intros Hfuel.
  destruct (unsubscribe_terminates fuel p st Hfuel) as [[st' o] Hrun].
  destruct (step_log _ _ (unsubscribe_step _ _ _ _ _ Hrun))
    as (evs & Hlog & _ & Hev).
  destruct (unsubscribe_calls_callables _ _ _ _ _ Hrun) as (evs' & Hlog' & Hf).
  assert (evs' = evs) as -> by (apply (app_inv_head (log st)); congruence).
  exists st', o, evs. split; [done|]. split; [done|].
  intros f b Hin. destruct (Hev f b Hin) as (Ha & Hd & Hfb).
  split; [done|]. split; [by eapply Hf | done].
Qed.

Lemma cascade_runs_active_primaries_witness :
  active (heap state_child_unsubscribed) < 3 ∧
  ∃ st' o evs,
    unsubscribe 3 1 state_child_unsubscribed = Some (st', o) ∧
    log st' = log state_child_unsubscribed ++ evs ∧
    ∀ f b, Call f (VSub b) ∈ evs →
      f = _unsubscribe (deref state_child_unsubscribed b) ∧
      isFunction f = true ∧
      isUnsubscribed (deref state_child_unsubscribed b) = false ∧
      isUnsubscribed (deref st' b) = true.
Proof.
  assert (H1 : active (heap state_child_unsubscribed) < 3)
    by (vm_compute; lia).
  split; [done|].
  exact (cascade_runs_active_primaries 3 1 state_child_unsubscribed H1).
Defined.

(** ** When [unsubscribe] throws, and in which order it lists the errors *)

(** X5. [unsubscribe] ends; it throws if and only if one of the calls it
    made failed (the callee threw, or was not a callable), whatever the
    depth of the instance the call belongs to; and what it throws is always
    an [UnsubscriptionError], never the raw failure. *)
Theorem unsubscribe_throws_on_failure_only (fuel : nat) (p : addr)
    (st : State) :
  active (heap st) < fuel →
  ∃ st' o evs,
    unsubscribe fuel p st = Some (st', o) ∧
    log st' = log st ++ evs ∧
    (o ≠ Returns ↔ ∃ ev, ev ∈ evs ∧ failed ev = true) ∧
    (o = Returns ∨ ∃ l, o = Throws (UnsubscriptionError l)).
Proof.
  intros Hfuel.
  destruct (unsubscribe_terminates fuel p st Hfuel) as [[st' o] Hrun].
  destruct (unsubscribe_outcome _ _ _ _ _ Hrun) as (evs & Hlog & ->).
  exists st', (outcome_of evs), evs. split; [done|]. split; [done|].
  unfold outcome_of. destruct (existsb failed evs) eqn:Hf.
  - apply existsb_exists in Hf as (ev & Hin & Hev). split; [|right; eauto].
    split; [|done]. intros _. exists ev. by rewrite list_elem_of_In.
  - split; [|by left]. split; [done|].
    intros (ev & Hin & Hev). exfalso.
    assert (existsb failed evs = true); [|congruence].
    apply existsb_exists. exists ev. by rewrite <- list_elem_of_In.
Qed.

Lemma unsubscribe_throws_on_failure_only_witness :
  active (heap state_flattening) < 6 ∧
  ∃ st' o evs,
    unsubscribe 6 3 state_flattening = Some (st', o) ∧
    log st' = log state_flattening ++ evs ∧
    (o ≠ Returns ↔ ∃ ev, ev ∈ evs ∧ failed ev = true) ∧
    (o = Returns ∨ ∃ l, o = Throws (UnsubscriptionError l)).
Proof.
  assert (H1 : active (heap state_flattening) < 6) by (vm_compute; lia).
  split; [done|].
  exact (unsubscribe_throws_on_failure_only 6 3 state_flattening H1).
Defined.

Lemma outcome_of_raw evs :
  (∀ ev, ev ∈ evs → instanceof_UnsubscriptionError (thrown ev) = false) →
  outcome_of evs = aggregate (thrown <$> List.filter failed evs).
Proof.
  intros Hraw. unfold outcome_of.
  assert (flat_map contribution evs = thrown <$> List.filter failed evs) as ->.
  { induction evs as [|[f t] evs IH]; [done|].
    assert (Hft := Hraw (Call f t) ltac:(by left)).
    cbn [flat_map List.filter]. rewrite IH by (intros ev Hin; apply Hraw; by right).
    destruct f as [| | | | | |? [e|]| | | | |]; try done.
    simpl in Hft. by destruct t, e. }
  assert (existsb failed evs = true ↔ List.filter failed evs ≠ []) as Hne.
  { clear Hraw. induction evs as [|ev evs IH]; simpl; [done|].
    destruct (failed ev); simpl; [done | apply IH]. }
  destruct (existsb failed evs).
  - destruct (List.filter failed evs); [by destruct (proj1 Hne eq_refl) | done].
  - destruct (List.filter failed evs) as [|ev l]; [done|].
    by discriminate (proj2 Hne ltac:(done)).
Qed.

(** X6. [unsubscribe] ends, and when none of the failed calls threw an
    [UnsubscriptionError] itself, what it throws lists exactly the values
    that the failed calls threw ([TypeError] for a callee that is not a
    callable), one entry per failed call, in the order of the calls, at
    whatever depth they were made; it returns when no call failed.  The
    list then holds no [UnsubscriptionError]. *)
Theorem aggregate_lists_failures_in_call_order (fuel : nat) (p : addr)
    (st : State) :
  active (heap st) < fuel →
  ∃ st' o evs,
    unsubscribe fuel p st = Some (st', o) ∧
    log st' = log st ++ evs ∧
    ((∀ ev, ev ∈ evs → instanceof_UnsubscriptionError (thrown ev) = false) →
     o = aggregate (thrown <$> List.filter failed evs) ∧
     Forall (λ e, instanceof_UnsubscriptionError e = false)
       (thrown <$> List.filter failed evs)).
Proof.
  intros Hfuel.
  destruct (unsubscribe_terminates fuel p st Hfuel) as [[st' o] Hrun].
  destruct (unsubscribe_outcome _ _ _ _ _ Hrun) as (evs & Hlog & ->).
  exists st', (outcome_of evs), evs. split; [done|]. split; [done|].
  intros Hraw. split; [by apply outcome_of_raw|].
  apply Forall_fmap, Forall_forall. intros ev Hin. apply Hraw.
  apply list_elem_of_In, filter_In in Hin as [Hin _].
  by apply list_elem_of_In.
Qed.

Lemma aggregate_lists_failures_in_call_order_witness :
  active (heap state_flattening) < 6 ∧
  ∃ st' o evs,
    unsubscribe 6 1 state_flattening = Some (st', o) ∧
    log st' = log state_flattening ++ evs ∧
    ((∀ ev, ev ∈ evs → instanceof_UnsubscriptionError (thrown ev) = false) →
     o = aggregate (thrown <$> List.filter failed evs) ∧
     Forall (λ e, instanceof_UnsubscriptionError e = false)
       (thrown <$> List.filter failed evs)).
Proof.
  assert (H1 : active (heap state_flattening) < 6) by (vm_compute; lia).
  split; [done|].
  exact (aggregate_lists_failures_in_call_order 6 1 state_flattening H1).
Defined.

(** On the state of the flattening law the four calls all fail, none with
    an aggregate, and the list is what they threw, in their order. *)
Example flattening_in_call_order :
  ∃ st',
    unsubscribe 6 1 state_flattening
      = Some (st', aggregate [VStr "e4"; VStr "e1"; VStr "e2"; VStr "e3"]) ∧
    thrown <$> List.filter failed (log st')
      = [VStr "e4"; VStr "e1"; VStr "e2"; VStr "e3"].
Proof. vm_compute. by eexists. Qed.

(** ** A cascade reaches every descendant *)








(** ** [add] on an instance that is not unsubscribed only registers *)

Lemma push_subscription_frame this sub st :
  this < length (heap st) →
  log (push_subscription this sub st) = log st ∧
  (∀ a, isUnsubscribed (deref (push_subscription this sub st) a)
          = isUnsubscribed (deref st a)) ∧
  (∀ a, a ≠ this → deref (push_subscription this sub st) a = deref st a).
Proof.
  intros Hlt. split; [done|]. split.
  - intros a. destruct (decide (this = a)) as [<-|Hne].
    + by rewrite deref_push_subscription_eq.
    + by rewrite deref_push_subscription_ne.
  - intros a Hne. by rewrite deref_push_subscription_ne.
Qed.

(** X9. [add] on an instance that is not unsubscribed calls nothing and
    unsubscribes nothing, whatever it is given: it writes nothing to the
    log, leaves every flag and every other existing instance as they are,
    needs no fuel, and either returns or throws the usage error. *)
Theorem add_on_active_only_registers (this : addr) (teardown : Value)
    (st : State) :
  isUnsubscribed (deref st this) = false →
  ∃ st' o,
    (∀ fuel, add fuel this teardown st = Some (st', o)) ∧
    log st' = log st ∧
    (∀ a, a < length (heap st) →
          isUnsubscribed (deref st' a) = isUnsubscribed (deref st a)) ∧
    (∀ a, a < length (heap st) → a ≠ this → deref st' a = deref st a) ∧
    (o = Returns ∨ o = Throws (Error teardown)).
Proof.
  intros Hu. pose proof (active_lt_length _ _ Hu) as Hlt.
  assert (Hsame : ∀ o, o = Returns ∨ o = Throws (Error teardown) →
    log st = log st ∧
    (∀ a, a < length (heap st) →
          isUnsubscribed (deref st a) = isUnsubscribed (deref st a)) ∧
    (∀ a, a < length (heap st) → a ≠ this → deref st a = deref st a) ∧
    (o = Returns ∨ o = Throws (Error teardown))) by done.
  assert (Hpush : ∀ sub,
    log (push_subscription this sub st) = log st ∧
    (∀ a, a < length (heap st) →
          isUnsubscribed (deref (push_subscription this sub st) a)
            = isUnsubscribed (deref st a)) ∧
    (∀ a, a < length (heap st) → a ≠ this →
          deref (push_subscription this sub st) a = deref st a) ∧
    (Returns = Returns ∨ Returns = Throws (Error teardown))).
  { intros sub.
    destruct (push_subscription_frame this sub st Hlt) as (Hl & Hf & Ho).
    split; [done|]. split; [auto|]. split; [auto | by left]. }
  destruct teardown as [| |b|z| |s|id thr|id i u|c|l|t|];
    try (exists st, Returns; (split; [done|]); apply Hsame; by left).
  - destruct b; [exists st, (Throws (Error (VBool true)))
                | exists st, Returns]; (split; [done|]); apply Hsame; auto.
  - destruct (decide (z = 0%Z)) as [->|Hz].
    + exists st, Returns. split; [done|]. apply Hsame. by left.
    + exists st, (Throws (Error (VNum z))). split; [|apply Hsame; by right].
      intros fuel. unfold add. simpl.
      by rewrite (proj2 (Z.eqb_neq z 0%Z) Hz).
  - destruct (decide (s = EmptyString)) as [->|Hs].
    + exists st, Returns. split; [done|]. apply Hsame. by left.
    + exists st, (Throws (Error (VStr s))). split; [|apply Hsame; by right].
      intros fuel. unfold add. simpl. by rewrite bool_decide_eq_false_2.
  - set (st0 := (new_Subscription (VFun id thr) st).2).
    exists (push_subscription this (VSub (length (heap st))) st0), Returns.
    assert (Hu0 : deref st0 this = deref st this)
      by by apply deref_new_Subscription_old.
    assert (Hlt0 : this < length (heap st0))
      by (unfold st0; rewrite length_new_Subscription; lia).
    destruct (push_subscription_frame this (VSub (length (heap st))) st0 Hlt0)
      as (Hl & Hf & Ho).
    split; [|split; [done|split; [|split; [|by left]]]].
    + intros fuel. rewrite add_callable. cbv zeta. fold st0.
      by rewrite Hu0, Hu.
    + intros a Ha. rewrite Hf. unfold st0.
      by rewrite deref_new_Subscription_old.
    + intros a Ha Hne. rewrite Ho by done. unfold st0.
      by rewrite deref_new_Subscription_old.
  - destruct (truthy i || negb (isFunction u)) eqn:Hc.
    + exists st, Returns. split; [|apply Hsame; by left].
      intros fuel. by rewrite add_foreign, Hc.
    + exists (push_subscription this (VObj id i u) st), Returns.
      split; [|apply Hpush]. intros fuel. by rewrite add_foreign, Hc, Hu.
  - destruct (bool_decide (c = this) || bool_decide (c = EMPTY)
              || isUnsubscribed (deref st c)) eqn:Hc.
    + exists st, Returns. split; [|apply Hsame; by left].
      intros fuel. by rewrite add_instance, Hc.
    + exists (push_subscription this (VSub c) st), Returns.
      split; [|apply Hpush]. intros fuel. by rewrite add_instance, Hc, Hu.
Qed.

Lemma add_on_active_only_registers_witness :
  isUnsubscribed (deref state_parent_child 1) = false ∧
  ∃ st' o,
    (∀ fuel, add fuel 1 scenario_f state_parent_child = Some (st', o)) ∧
    log st' = log state_parent_child ∧
    (∀ a, a < length (heap state_parent_child) →
          isUnsubscribed (deref st' a)
            = isUnsubscribed (deref state_parent_child a)) ∧
    (∀ a, a < length (heap state_parent_child) → a ≠ 1 →
          deref st' a = deref state_parent_child a) ∧
    (o = Returns ∨ o = Throws (Error scenario_f)).
Proof.
  assert (H1 : isUnsubscribed (deref state_parent_child 1) = false)
    by reflexivity.
  split; [done|].
  exact (add_on_active_only_registers 1 scenario_f state_parent_child H1).
Defined.

(** ** The constructor *)


(** ** Instances that are children of each other *)

Lemma active_insert_flag h a s s' :
  h !! a = Some s → isUnsubscribed s' = isUnsubscribed s →
  active (<[a := s']> h) = active h.
Proof.
  revert a. induction h as [|x h IH]; intros [|a]; simpl; try done.
  - by intros [= ->] ->.
  - intros Hl Hs. by rewrite (IH a Hl Hs).
Qed.

Lemma active_push_subscription this sub st :
  active (heap (push_subscription this sub st)) = active (heap st).
Proof.
  unfold push_subscription; simpl.
  destruct (heap st !! this) as [s|] eqn:E.
  - eapply active_insert_flag; [done|]. unfold deref. by rewrite E.
  - rewrite list_insert_ge; [done|]. by apply lookup_ge_None.
Qed.

(** X11. [add] rejects an instance as its own child only: two distinct
    instances that are not unsubscribed can be added to each other, each
    [add] returning normally and storing its argument.  [unsubscribe] on
    one of them still ends, and leaves both unsubscribed. *)
Theorem mutual_children_unsubscribe (fuel : nat) (p q : addr) (st : State) :
  isUnsubscribed (deref st p) = false →
  isUnsubscribed (deref st q) = false →
  p ≠ q → p ≠ EMPTY → q ≠ EMPTY →
  active (heap st) < fuel →
  ∃ st1 st2 st3 o,
    add fuel p (VSub q) st = Some (st1, Returns) ∧
    add fuel q (VSub p) st1 = Some (st2, Returns) ∧
    VSub q ∈ children st2 p ∧
    VSub p ∈ children st2 q ∧
    unsubscribe fuel p st2 = Some (st3, o) ∧
    isUnsubscribed (deref st3 p) = true ∧
    isUnsubscribed (deref st3 q) = true.
Proof.
  intros Hp Hq Hpq Hpe Hqe Hfuel.
  pose proof (active_lt_length _ _ Hp) as Hlp.
  pose proof (active_lt_length _ _ Hq) as Hlq.
  set (st1 := push_subscription p (VSub q) st).
  set (st2 := push_subscription q (VSub p) st1).
  assert (Hlen1 : length (heap st1) = length (heap st))
    by (unfold st1, push_subscription; simpl; by rewrite length_insert).
  assert (Hp1 : isUnsubscribed (deref st1 p) = false)
    by (unfold st1; by rewrite deref_push_subscription_eq).
  assert (Hq1 : isUnsubscribed (deref st1 q) = false)
    by (unfold st1; by rewrite deref_push_subscription_ne).
  assert (Hp2 : isUnsubscribed (deref st2 p) = false)
    by (unfold st2; by rewrite deref_push_subscription_ne).
  assert (Hin : VSub q ∈ children st2 p).
  { unfold children, st2. rewrite deref_push_subscription_ne by done.
    unfold st1. rewrite deref_push_subscription_eq by done. simpl.
    apply elem_of_app. right. by left. }
  assert (Hact : active (heap st2) < fuel)
    by (unfold st2, st1; by rewrite !active_push_subscription).
  destruct (unsubscribe_terminates fuel p st2 Hact) as [[st3 o] Hrun].
  exists st1, st2, st3, o. split_and!; try done.
  - rewrite add_instance, Hq, Hp. by rewrite !bool_decide_eq_false_2.
  - rewrite add_instance, Hp1, Hq1. by rewrite !bool_decide_eq_false_2.
  - unfold children, st2. rewrite deref_push_subscription_eq by lia. simpl.
    apply elem_of_app. right. by left.
  - by eapply unsubscribe_marks.
  - by eapply (unsubscribe_attempts_all _ _ _ _ _ Hp2 Hrun).
Qed.

Lemma mutual_children_unsubscribe_witness :
  (isUnsubscribed (deref state_parent_child 1) = false ∧
   isUnsubscribed (deref state_parent_child 2) = false ∧
   1 ≠ 2 ∧ 1 ≠ EMPTY ∧ 2 ≠ EMPTY ∧
   active (heap state_parent_child) < 3) ∧
  ∃ st1 st2 st3 o,
    add 3 1 (VSub 2) state_parent_child = Some (st1, Returns) ∧
    add 3 2 (VSub 1) st1 = Some (st2, Returns) ∧
    VSub 2 ∈ children st2 1 ∧
    VSub 1 ∈ children st2 2 ∧
    unsubscribe 3 1 st2 = Some (st3, o) ∧
    isUnsubscribed (deref st3 1) = true ∧
    isUnsubscribed (deref st3 2) = true.
Proof.
  assert (H1 : isUnsubscribed (deref state_parent_child 1) = false)
    by reflexivity.
  assert (H2 : isUnsubscribed (deref state_parent_child 2) = false)
    by reflexivity.
  assert (H3 : 1 ≠ 2) by lia.
  assert (H4 : 1 ≠ EMPTY) by (unfold EMPTY; lia).
  assert (H5 : 2 ≠ EMPTY) by (unfold EMPTY; lia).
  assert (H6 : active (heap state_parent_child) < 3) by (vm_compute; lia).
  split; [done|].
  exact (mutual_children_unsubscribe 3 1 2 state_parent_child
           H1 H2 H3 H4 H5 H6).
Defined.

(** ** Children that are not instances *)

Lemma unsubscribe_primary_state this f st :
  (unsubscribe_primary this f st).1 =
    {| heap := heap st; log := log st ++ primary_events this f |}.
Proof.
  rewrite unsubscribe_primary_spec. unfold primary_events.
  destruct st as [h l].
  destruct f as [| | | | | |id [e|]| | | | |]; simpl;
    by rewrite ?app_nil_r.
Qed.




(** ** Callables run in the order in which they were added *)

Lemma run_ops_add_callables fuel p fs st :
  isUnsubscribed (deref st p) = false →
  Forall (λ f, isFunction f = true) fs →
  ∃ st1,
    run_ops fuel (OpAdd p <$> fs) st = Some st1 ∧
    log st1 = log st ∧
    deref st1 p =
      {| isUnsubscribed := false;
         _unsubscribe := _unsubscribe (deref st p);
         _subscriptions :=
           if decide (fs = []) then _subscriptions (deref st p)
           else Some (children st p
                        ++ (VSub <$> seq (length (heap st)) (length fs))) |} ∧
    (∀ i f, fs !! i = Some f →
       deref st1 (length (heap st) + i) =
         {| isUnsubscribed := false; _unsubscribe := f;
            _subscriptions := None |}) ∧
    (∀ a, a < length (heap st) → a ≠ p → deref st1 a = deref st a).
Proof.
  intros Hp Hall. revert st Hp.
  induction Hall as [|f fs Hf _ IH]; intros st Hp.
  { exists st. split; [done|]. split; [done|]. split.
    - rewrite <- Hp. by destruct (deref st p).
    - split; [by intros i f ?|done]. }
  pose proof (active_lt_length _ _ Hp) as Hlt.
  set (n := length (heap st)).
  set (st0 := (new_Subscription f st).2).
  set (st' := push_subscription p (VSub n) st0).
  assert (Hlt0 : p < length (heap st0))
    by (unfold st0; rewrite length_new_Subscription; lia).
  assert (Hp0 : deref st0 p = deref st p)
    by by apply deref_new_Subscription_old.
  assert (Hadd : add fuel p f st = Some (st', Returns)).
  { destruct f as [| | | | | |id thr| | | | |]; try done.
    rewrite add_callable. cbv zeta. fold st0 n. by rewrite Hp0, Hp. }
  assert (Hlen' : length (heap st') = S n).
  { unfold st', push_subscription; simpl.
    rewrite length_insert, length_app. simpl. unfold n. lia. }
  assert (Hp' : deref st' p =
            {| isUnsubscribed := false;
               _unsubscribe := _unsubscribe (deref st p);
               _subscriptions := Some (children st p ++ [VSub n]) |}).
  { unfold st'. rewrite deref_push_subscription_eq by done.
    unfold children. by rewrite Hp0, Hp. }
  assert (Hn' : deref st' n =
            {| isUnsubscribed := false; _unsubscribe := f;
               _subscriptions := None |}).
  { unfold st'. rewrite deref_push_subscription_ne by (unfold n; lia).
    unfold st0, n. rewrite deref_new_Subscription_new.
    by destruct f. }
  assert (Hold' : ∀ a, a < n → a ≠ p → deref st' a = deref st a).
  { intros a Ha Hne. unfold st'. rewrite deref_push_subscription_ne by done.
    by apply deref_new_Subscription_old. }
  destruct (IH st') as (st1 & Hrun & Hlog & Hp1 & Hnew & Hold).
  { by rewrite Hp'. }
  exists st1. split_and!.
  - simpl. unfold exists_in. rewrite bool_decide_eq_true_2 by done.
    by rewrite Hadd.
  - by rewrite Hlog.
  - assert (children st' p = children st p ++ [VSub n]) as Hch'
      by (unfold children at 1; by rewrite Hp').
    rewrite Hp1, Hch', Hp'. cbn [_unsubscribe _subscriptions]. f_equal.
    destruct (decide (f :: fs = [])) as [?|_]; [done|]. rewrite Hlen'.
    destruct (decide (fs = [])) as [->|_]; [done|].
    cbn [length seq fmap list_fmap]. by rewrite <- app_assoc.
  - intros [|i] f' Hi.
    + injection Hi as <-. rewrite Nat.add_0_r. fold n.
      rewrite Hold by (rewrite ?Hlen'; lia). done.
    + rewrite Hlen' in Hnew. replace (n + S i) with (S n + i) by lia.
      by apply Hnew.
  - intros a Ha Hne. rewrite Hold by (rewrite ?Hlen'; lia). by apply Hold'.
Qed.

Lemma unsubscribe_loop_wrappers fuel n fs acc st :
  Forall (λ f, isFunction f = true) fs →
  (∀ i f, fs !! i = Some f →
     deref st (n + i) =
       {| isUnsubscribed := false; _unsubscribe := f;
          _subscriptions := None |}) →
  ∃ st' acc',
    unsubscribe_loop (unsubscribe (S fuel)) (VSub <$> seq n (length fs)) acc st
      = Some (st', acc') ∧
    log st' = log st ++ wrapper_calls n fs.
Proof.
  intros Hall. revert n acc st.
  induction Hall as [|f fs Hf _ IH]; intros n acc st Hleaf.
  { exists st, acc. split; [done|]. simpl. by rewrite app_nil_r. }
  cbn [length seq fmap list_fmap unsubscribe_loop isObject].
  change (isObject (VSub n)) with true. cbn [call_unsubscribe].
  pose proof (Hleaf 0 f eq_refl) as Hn. rewrite Nat.add_0_r in Hn.
  destruct f as [| | | | | |id thr| | | | |]; try done.
  rewrite (unsubscribe_leaf fuel n id thr st Hn).
  set (st1 := record (Call (VFun id thr) (VSub n))
                (store n (disposed_of (deref st n)) st)).
  assert (Hleaf1 : ∀ i f, fs !! i = Some f →
            deref st1 (S n + i) =
              {| isUnsubscribed := false; _unsubscribe := f;
                 _subscriptions := None |}).
  { intros i f' Hi. unfold st1. rewrite deref_record.
    rewrite deref_store_ne by lia.
    replace (S n + i) with (n + S i) by lia. by apply Hleaf. }
  assert (∀ acc0, ∃ st' acc',
    unsubscribe_loop (unsubscribe (S fuel)) (VSub <$> seq (S n) (length fs))
      acc0 st1 = Some (st', acc') ∧
    log st' = log st ++ wrapper_calls n (VFun id thr :: fs)) as Hrest.
  { intros acc0. destruct (IH (S n) acc0 st1 Hleaf1) as (st' & acc' & -> & Hl).
    exists st', acc'. split; [done|]. rewrite Hl. simpl.
    by rewrite <- app_assoc. }
  destruct thr; apply Hrest.
Qed.

Lemma outcome_of_primary_calls evs :
  Forall (λ ev, primary_call ev = true) evs →
  outcome_of evs = aggregate (flat_map contribution evs).
Proof.
  intros Hall. unfold outcome_of.
  induction Hall as [|[f t] evs Hev _ IH]; [done|].
  destruct f as [| | | | | |id [e|]| | | | |]; try done;
    by destruct t.
Qed.

Lemma contribution_wrapper_calls n fs :
  Forall (λ f, isFunction f = true) fs →
  Forall (λ ev, primary_call ev = true) (wrapper_calls n fs) ∧
  flat_map contribution (wrapper_calls n fs) = omap thrown_by fs.
Proof.
  intros Hall. revert n.
  induction Hall as [|f fs Hf _ IH]; intros n; [done|].
  destruct (IH (S n)) as [Hp Hc].
  destruct f as [| | | | | |id [e|]| | | | |]; try done; simpl.
  - split; [by constructor|]. by rewrite Hc.
  - split; [by constructor | done].
Qed.

(** X8. Let [p] be an instance that is not unsubscribed and has no children.
    Adding the callables [fs] one after the other calls none of them; it
    creates one instance per callable, at consecutive addresses, and makes
    them the children of [p] in the order of the calls of [add].
    [p.unsubscribe()] then calls the primary action of [p] first, if it is a
    callable, and after it every callable of [fs], once, in the order in
    which it was added, each with its own instance as receiver, none being
    skipped after a failure; it throws the aggregate of the values they
    threw, in that order, and returns if none threw. *)
Theorem added_callables_run_in_order (fuel : nat) (p : addr)
    (fs : list Value) (st : State) :
  isUnsubscribed (deref st p) = false →
  children st p = [] →
  Forall (λ f, isFunction f = true) fs →
  ∃ st1 st2,
    run_ops fuel (OpAdd p <$> fs) st = Some st1 ∧
    log st1 = log st ∧
    children st1 p = VSub <$> seq (length (heap st)) (length fs) ∧
    unsubscribe (S (S fuel)) p st1
      = Some (st2, aggregate (omap thrown_by (_unsubscribe (deref st p) :: fs))) ∧
    log st2 = log st ++ primary_events p (_unsubscribe (deref st p))
                ++ wrapper_calls (length (heap st)) fs.
Proof.
  intros Hp Hch Hall.
  pose proof (active_lt_length _ _ Hp) as Hlt.
  destruct (run_ops_add_callables fuel p fs st Hp Hall)
    as (st1 & Hrun & Hlog & Hp1 & Hnew & Hold).
  set (n := length (heap st)) in *. set (g := _unsubscribe (deref st p)) in *.
  assert (Hch1 : children st1 p = VSub <$> seq n (length fs)).
  { unfold children. rewrite Hp1. cbn [_subscriptions].
    destruct (decide (fs = [])) as [->|_]; [done|]. simpl.
    by rewrite Hch. }
  assert (Hu1 : isUnsubscribed (deref st1 p) = false) by by rewrite Hp1.
  assert (Hg1 : _unsubscribe (deref st1 p) = g) by by rewrite Hp1.
  set (st1' := store p (disposed_of (deref st1 p)) st1).
  set (st2' := {| heap := heap st1';
                  log := log st1' ++ primary_events p g |}).
  assert (Hleaf : ∀ i f, fs !! i = Some f →
            deref st2' (n + i) =
              {| isUnsubscribed := false; _unsubscribe := f;
                 _subscriptions := None |}).
  { intros i f Hi. rewrite <- (Hnew i f Hi).
    unfold st2', st1', deref; simpl.
    rewrite list_lookup_insert_ne by lia. done. }
  assert (∃ st2 o,
    unsubscribe (S (S fuel)) p st1 = Some (st2, o) ∧
    log st2 = log st ++ primary_events p g ++ wrapper_calls n fs)
    as (st2 & o & Hrun2 & Hlog2).
  { rewrite unsubscribe_active by done. cbv zeta. rewrite Hg1.
    pose proof (unsubscribe_primary_state p g st1') as Hst. fold st2' in Hst.
    fold st1'. destruct (unsubscribe_primary p g st1') as [st2 acc].
    cbn [fst snd] in *. subst st2.
    destruct (_subscriptions (deref st1 p)) as [subs|] eqn:Hs.
    - assert (subs = VSub <$> seq n (length fs)) as ->
        by (unfold children in Hch1; by rewrite Hs in Hch1).
      destruct (unsubscribe_loop_wrappers fuel n fs acc st2' Hall Hleaf)
        as (st3 & acc' & -> & Hl).
      exists st3, (finish acc'). split; [done|].
      rewrite Hl. simpl. by rewrite Hlog, <- app_assoc.
    - assert (fs = []) as ->.
      { unfold children in Hch1. rewrite Hs in Hch1.
        destruct fs; [done | discriminate]. }
      exists st2', (finish acc). split; [done|]. simpl.
      by rewrite Hlog, app_nil_r. }
  exists st1, st2. split_and!; try done.
  rewrite Hrun2. do 2 f_equal.
  destruct (unsubscribe_outcome _ _ _ _ _ Hrun2) as (evs & Hlog' & ->).
  assert (evs = primary_events p g ++ wrapper_calls n fs) as ->.
  { apply (app_inv_head (log st)). rewrite <- Hlog. congruence. }
  destruct (contribution_wrapper_calls n fs Hall) as [Hprim Hcontr].
  rewrite outcome_of_primary_calls.
  - rewrite flat_map_app, Hcontr. f_equal. unfold primary_events.
    cbn [omap list_omap].
    destruct g as [| | | | | |id [e|]| | | | |]; done.
  - apply Forall_app. split; [|done]. unfold primary_events.
    destruct g as [| | | | | |id thr| | | | |]; by repeat constructor.
Qed.

Lemma added_callables_run_in_order_witness :
  (isUnsubscribed (deref state_with_action 1) = false ∧
   children state_with_action 1 = [] ∧
   Forall (λ f, isFunction f = true) [scenario_f; scenario_g; scenario_f]) ∧
  ∃ st1 st2,
    run_ops 0 (OpAdd 1 <$> [scenario_f; scenario_g; scenario_f])
      state_with_action = Some st1 ∧
    log st1 = log state_with_action ∧
    children st1 1 = [VSub 2; VSub 3; VSub 4] ∧
    unsubscribe 2 1 st1
      = Some (st2, Throws (UnsubscriptionError [VStr "a"; VStr "a"])) ∧
    log st2 = [Call scenario_g (VSub 1); Call scenario_f (VSub 2);
               Call scenario_g (VSub 3); Call scenario_f (VSub 4)].
Proof.
  assert (H1 : isUnsubscribed (deref state_with_action 1) = false)
    by reflexivity.
  assert (H2 : children state_with_action 1 = []) by reflexivity.
  assert (H3 : Forall (λ f, isFunction f = true)
                 [scenario_f; scenario_g; scenario_f])
    by (repeat constructor).
  split; [done|].
  exact (added_callables_run_in_order 0 1 _ state_with_action H1 H2 H3).
Defined.
